(** * MAC-Hosting: schema lifecycle, seeding and session-gated routing

    A shallow embedding of [server.js] (and of its second revision, which
    registers the static service pages in a loop) together with [schema.sql].

    The program is request/response glue over SQLite (three tables), the
    in-memory session store of express-session and bcryptjs.  The embedding
    keeps the control flow of the source: every [await run/get/all/exec] is a
    step of a state-and-exception monad over a [world] (database, schema file,
    session store, console), [try/catch] is [try_catch], [process.exit] is
    the [Exit] outcome. *)

From stdpp Require Import base strings list gmap fin_maps.
From Stdlib Require Import ZArith NArith Ascii Lia.

Local Open Scope string_scope.
Local Open Scope Z_scope.
Local Set Warnings "-register-all".

(** ** JavaScript values of a parsed request body

    [express.urlencoded({extended: true})] and [express.json()] produce
    strings, arrays and plain objects, and (JSON only) booleans, null and
    numbers.  The handlers observe a number only through its truthiness and
    its string conversion, so a number is carried as exactly these two
    observations. *)

Inductive jsval : Type :=      (* an object lists each own key once *)
  | JUndefined
  | JNull
  | JBool (b : bool)
  | JNum (falsy : bool) (repr : string)
  | JStr (s : string)
  | JArr (xs : list jsval)
  | JObj (fields : list (string * jsval)).

Definition string_eqb (a b : string) : bool := String.eqb a b.

(** First binding of a key in an association list (object property lookup,
    row column lookup). *)
Fixpoint assoc {A : Type} (k : string) (l : list (string * A)) : option A :=
  match l with
  | [] => None
  | (k', v) :: l' => if string_eqb k k' then Some v else assoc k l'
  end.

(** [obj.k] for the own property [k] of a parsed body: [undefined] when the
    value is not an object or has no such property. *)
Definition get_field (v : jsval) (k : string) : jsval :=
  match v with
  | JObj fs => default JUndefined (assoc k fs)
  | _ => JUndefined
  end.

(** Truthiness ([ToBoolean]). *)
Definition truthy (v : jsval) : bool :=
  match v with
  | JUndefined | JNull => false
  | JBool b => b
  | JNum falsy _ => negb falsy
  | JStr s => negb (string_eqb s "")
  | JArr _ | JObj _ => true
  end.

Definition isArray (v : jsval) : bool :=
  match v with JArr _ => true | _ => false end.

(** [a || b] *)
Definition js_or (a b : jsval) : jsval := if truthy a then a else b.

(** Strings joined with a separator, as [Array.prototype.join] glues the
    converted elements. *)
Fixpoint join_strings (sep : string) (l : list string) : string :=
  match l with
  | [] => ""
  | [s] => s
  | s :: l' => s +:+ sep +:+ join_strings sep l'
  end.

Fixpoint sequence_opt {A : Type} (l : list (option A)) : option (list A) :=
  match l with
  | [] => Some []
  | None :: _ => None
  | Some a :: l' =>
      match sequence_opt l' with Some r => Some (a :: r) | None => None end
  end.

(** [String(v)].  [None] stands for the [TypeError] raised when a parsed
    object shadows [toString] with a JSON value (which is never callable):
    the inherited [valueOf] then returns the object itself and the conversion
    to a primitive fails.  An array converts through [join(",")], where
    [undefined] and [null] elements count as the empty string. *)
Fixpoint String_ (v : jsval) : option string :=
  match v with
  | JUndefined => Some "undefined"
  | JNull => Some "null"
  | JBool true => Some "true"
  | JBool false => Some "false"
  | JNum _ repr => Some repr
  | JStr s => Some s
  | JArr xs =>
      let fix elems (l : list jsval) : list (option string) :=
        match l with
        | [] => []
        | JUndefined :: l' => Some "" :: elems l'
        | JNull :: l' => Some "" :: elems l'
        | x :: l' => String_ x :: elems l'
        end in
      join_strings "," <$> sequence_opt (elems xs)
  | JObj fs =>
      match assoc "toString" fs with
      | Some _ => None
      | None => Some "[object Object]"
      end
  end.

(** The string of one array element inside [join]. *)
Definition join_elem (x : jsval) : option string :=
  match x with
  | JUndefined | JNull => Some ""
  | _ => String_ x
  end.

(** [xs.join(sep)] *)
Definition join (sep : string) (xs : list jsval) : option string :=
  join_strings sep <$> sequence_opt (map join_elem xs).

(** ** SQLite values, tables and the statements the program issues *)

Inductive sqlval : Type :=
  | SNull
  | SInt (n : Z)
  | SReal (repr : string)
  | SText (s : string)
  | SBlob (bytes : string).

Global Instance sqlval_eq_dec : EqDecision sqlval.
Proof. solve_decision. Defined.

Definition is_null (v : sqlval) : bool :=
  match v with SNull => true | _ => false end.

(** SQL [=] in a [WHERE] clause and in a uniqueness check: [NULL] equals
    nothing. *)
Definition sql_eqb (a b : sqlval) : bool :=
  negb (is_null a) && bool_decide (a = b).

(** A result row is a JS object keyed by column name. *)
Definition row : Type := list (string * sqlval).

(** A column definition, with the constraints [schema.sql] uses. *)
Record column : Type := Column {
  c_name : string;
  c_type : string;
  c_pk_auto : bool;      (* INTEGER PRIMARY KEY AUTOINCREMENT *)
  c_notnull : bool;      (* NOT NULL *)
  c_unique : bool;       (* UNIQUE *)
  c_default_now : bool   (* DEFAULT CURRENT_TIMESTAMP *)
}.

Global Instance column_eq_dec : EqDecision column.
Proof. solve_decision. Defined.

Record table : Type := Table {
  t_cols : list column;
  t_rows : list row;
  t_seq : Z              (* sqlite_sequence: largest rowid handed out *)
}.

Record database : Type := Database {
  tables : gmap string table;
  pragmas : gmap string string
}.

Inductive stmt : Type :=
  | Comment (text : string)
      (* -- text *)
  | Pragma (key value : string)
  | CreateTableIfNotExists (name : string) (cols : list column)
  | SelectMasterTable (name : string)
      (* SELECT name FROM sqlite_master WHERE type='table' AND name='..' *)
  | SelectCount (tbl : string)
      (* SELECT COUNT( * ) AS c FROM tbl *)
  | SelectWhereEq (tbl col : string)
      (* SELECT * FROM tbl WHERE col = ? *)
  | SelectAll (tbl : string)
      (* SELECT * FROM tbl *)
  | InsertInto (tbl : string) (cols : list string).
      (* INSERT INTO tbl (cols) VALUES (?, .., ?) *)

Inductive exn : Type :=
  | SqlError (code : string)
  | TypeError (what : string)
  | LibError (what : string).

Inductive res (A : Type) : Type :=
  | Done (a : A)
  | Fail (e : exn).
Arguments Done {A} a.
Arguments Fail {A} e.

(** *** schema.sql *)

Definition users_cols : list column := [
  Column "id" "INTEGER" true false false false;
  Column "username" "TEXT" false true true false;
  Column "password_hash" "TEXT" false true false false;
  Column "name" "TEXT" false true false false ].

Definition services_cols : list column := [
  Column "id" "INTEGER" true false false false;
  Column "title" "TEXT" false true false false;
  Column "price" "TEXT" false true false false;
  Column "summary" "TEXT" false true false false ].

Definition messages_cols : list column := [
  Column "id" "INTEGER" true false false false;
  Column "name" "TEXT" false true false false;
  Column "email" "TEXT" false true false false;
  Column "message" "TEXT" false true false false;
  Column "topics" "TEXT" false true false false;
  Column "created_at" "DATETIME" false false false true ].

Definition schema_sql : list stmt := [
  Comment "Usuarios (login)";
  CreateTableIfNotExists "users" users_cols;
  Comment "Servicios que se muestran en módulos";
  CreateTableIfNotExists "services" services_cols;
  Comment "Mensajes de contacto";
  CreateTableIfNotExists "messages" messages_cols ].

(** *** Executing one statement *)

Definition placeholders (s : stmt) : nat :=
  match s with
  | SelectWhereEq _ _ => 1
  | InsertInto _ cols => length cols
  | _ => 0
  end.

Fixpoint index_of (k : string) (l : list string) : option nat :=
  match l with
  | [] => None
  | k' :: l' => if string_eqb k k' then Some O else S <$> index_of k l'
  end.

Definition has_col (t : table) (k : string) : bool :=
  existsb (string_eqb k) (map c_name (t_cols t)).

(** Name of the rowid alias column, if the table declares one. *)
Definition pk_col (t : table) : option string :=
  c_name <$> (find c_pk_auto (t_cols t)).

Definition row_id (pk : string) (r : row) : Z :=
  match assoc pk r with Some (SInt n) => n | _ => 0 end.

Definition max_id (t : table) : Z :=
  match pk_col t with
  | Some pk => foldr (fun r acc => Z.max (row_id pk r) acc) 0 (t_rows t)
  | None => 0
  end.

(** AUTOINCREMENT: one more than the largest rowid ever present. *)
Definition next_rowid (t : table) : Z := 1 + Z.max (t_seq t) (max_id t).

(** Value an insert stores in column [c]: the bound parameter when the
    column is named, otherwise its default; a missing or NULL rowid is
    assigned by AUTOINCREMENT. *)
Definition insert_value (t : table) (now : string)
    (names : list string) (ps : list sqlval) (c : column) : sqlval :=
  let given :=
    match index_of (c_name c) names with
    | Some i => default SNull (ps !! i)
    | None => if c_default_now c then SText now else SNull
    end in
  if c_pk_auto c && is_null given then SInt (next_rowid t) else given.

Definition new_row (t : table) (now : string)
    (names : list string) (ps : list sqlval) : row :=
  map (fun c => (c_name c, insert_value t now names ps c)) (t_cols t).

Definition notnull_ok (t : table) (r : row) : bool :=
  forallb (fun c =>
    negb ((c_notnull c || c_pk_auto c)
          && is_null (default SNull (assoc (c_name c) r)))) (t_cols t).

Definition unique_ok (t : table) (r : row) : bool :=
  forallb (fun c =>
    negb (c_unique c || c_pk_auto c) ||
    forallb (fun old =>
      negb (sql_eqb (default SNull (assoc (c_name c) r))
                    (default SNull (assoc (c_name c) old)))) (t_rows t))
    (t_cols t).

Definition bump_seq (t : table) (r : row) : Z :=
  match pk_col t with
  | Some pk => Z.max (t_seq t) (row_id pk r)
  | None => t_seq t
  end.

Definition insert_into (t : table) (now : string)
    (names : list string) (ps : list sqlval) : res table :=
  if negb (forallb (has_col t) names) then Fail (SqlError "SQLITE_ERROR")
  else
    let r := new_row t now names ps in
    if negb (notnull_ok t r) then Fail (SqlError "SQLITE_CONSTRAINT")
    else if negb (unique_ok t r) then Fail (SqlError "SQLITE_CONSTRAINT")
    else Done (Table (t_cols t) (t_rows t ++ [r]) (bump_seq t r)).

(** Rows of [t] whose column [col] equals [p]. *)
Definition select_where (t : table) (col : string) (p : sqlval) : list row :=
  filter (fun r => sql_eqb (default SNull (assoc col r)) p = true) (t_rows t).

Definition with_tables (d : database) (ts : gmap string table) : database :=
  Database ts (pragmas d).

(** One statement against the database: the new database and the result
    rows, or the error SQLite reports.  [now] is the text
    [CURRENT_TIMESTAMP] evaluates to. *)
Definition sql_step (d : database) (now : string)
    (s : stmt) (ps : list sqlval) : res (database * list row) :=
  if bool_decide (placeholders s < length ps)%nat
  then Fail (SqlError "SQLITE_RANGE")
  else
  match s with
  | Comment _ => Done (d, [])
  | Pragma k v => Done (Database (tables d) (<[k := v]> (pragmas d)), [])
  | CreateTableIfNotExists name cols =>
      match tables d !! name with
      | Some _ => Done (d, [])
      | None => Done (with_tables d (<[name := Table cols [] 0]> (tables d)), [])
      end
  | SelectMasterTable name =>
      match tables d !! name with
      | Some _ => Done (d, [[("name", SText name)]])
      | None => Done (d, [])
      end
  | SelectCount tbl =>
      match tables d !! tbl with
      | Some t => Done (d, [[("c", SInt (Z.of_nat (length (t_rows t))))]])
      | None => Fail (SqlError "SQLITE_ERROR")
      end
  | SelectWhereEq tbl col =>
      match tables d !! tbl with
      | Some t =>
          if has_col t col then
            Done (d, select_where t col (default SNull (ps !! O)))
          else Fail (SqlError "SQLITE_ERROR")
      | None => Fail (SqlError "SQLITE_ERROR")
      end
  | SelectAll tbl =>
      match tables d !! tbl with
      | Some t => Done (d, t_rows t)
      | None => Fail (SqlError "SQLITE_ERROR")
      end
  | InsertInto tbl names =>
      match tables d !! tbl with
      | Some t =>
          match insert_into t now names ps with
          | Done t' => Done (with_tables d (<[tbl := t']> (tables d)), [])
          | Fail e => Fail e
          end
      | None => Fail (SqlError "SQLITE_ERROR")
      end
  end.

(** [db.exec(script)]: the statements in order, stopping at the first
    error; what ran before the error stays applied. *)
Fixpoint sql_script (d : database) (now : string) (script : list stmt)
    : database * option exn :=
  match script with
  | [] => (d, None)
  | s :: rest =>
      match sql_step d now s [] with
      | Done (d', _) => sql_script d' now rest
      | Fail e => (d, Some e)
      end
  end.

(** ** The world the server runs in *)

(** The identity snapshot kept in a session:
    [{ id: user.id, name: user.name, username: user.username }];
    a property the row lacks is [undefined] ([None]). *)
Record identity : Type := Identity {
  i_id : option sqlval;
  i_name : option sqlval;
  i_username : option sqlval
}.

Global Instance identity_eq_dec : EqDecision identity.
Proof. solve_decision. Defined.

(** Session data kept by the store under a session id: [session.user]. *)
Record sess : Type := Sess { s_user : option identity }.

Inductive log_entry : Type :=
  | Log (msg : string)
  | LogError (msg : string) (e : exn).

Record world : Type := World {
  db : database;                     (* data.db *)
  schema_file : option (list stmt);  (* schema.sql, when the file exists *)
  sessions : gmap string sess;       (* the session store *)
  faults : list bool;                (* environment: which of the coming
                                        storage calls fail (disk, lock) *)
  now : string;                      (* CURRENT_TIMESTAMP *)
  console : list log_entry           (* newest last *)
}.

Definition set_db (w : world) (d : database) : world :=
  World d (schema_file w) (sessions w) (faults w) (now w) (console w).
Definition set_sessions (w : world) (s : gmap string sess) : world :=
  World (db w) (schema_file w) s (faults w) (now w) (console w).
Definition set_faults (w : world) (f : list bool) : world :=
  World (db w) (schema_file w) (sessions w) f (now w) (console w).
Definition set_console (w : world) (c : list log_entry) : world :=
  World (db w) (schema_file w) (sessions w) (faults w) (now w) c.

(** *** Computations: state, exceptions and process exit *)

Inductive outcome (A : Type) : Type :=
  | Ok (a : A)
  | Throw (e : exn)
  | Exit (code : Z).
Arguments Ok {A} a.
Arguments Throw {A} e.
Arguments Exit {A} code.

Definition M (A : Type) : Type := world -> outcome A * world.

Definition ret {A} (a : A) : M A := fun w => (Ok a, w).

Definition bind {A B} (m : M A) (k : A -> M B) : M B :=
  fun w =>
    match m w with
    | (Ok a, w') => k a w'
    | (Throw e, w') => (Throw e, w')
    | (Exit c, w') => (Exit c, w')
    end.

Definition throw {A} (e : exn) : M A := fun w => (Throw e, w).

Definition process_exit {A} (code : Z) : M A := fun w => (Exit code, w).

(** [try { m } catch (e) { h e }] *)
Definition try_catch {A} (m : M A) (h : exn -> M A) : M A :=
  fun w =>
    match m w with
    | (Throw e, w') => h e w'
    | r => r
    end.

Declare Scope M_scope.
Delimit Scope M_scope with M.
Notation "x <- m ;; k" := (bind m (fun x => k))
  (at level 100, m at next level, right associativity) : M_scope.
Notation "m ;; k" := (bind m (fun _ => k))
  (at level 100, right associativity) : M_scope.
Local Open Scope M_scope.

Definition console_log (msg : string) : M unit :=
  fun w => (Ok tt, set_console w (console w ++ [Log msg])).

Definition console_error (msg : string) (e : exn) : M unit :=
  fun w => (Ok tt, set_console w (console w ++ [LogError msg e])).

(** ** Collaborators outside the repository

    bcryptjs and the parameter binding of the sqlite3 driver are taken as
    given: any hash function, any comparison (which may throw, [None]), and
    any binding of a non-string parameter (the value as a TEXT column stores
    and compares it).  A JS string is bound as TEXT. *)
Class Externals : Type := {
  bcrypt_hash : string -> nat -> string;
  bcrypt_compare : jsval -> option sqlval -> option bool;
  bind_other : jsval -> sqlval
}.

Section Server.
Context `{Ext : Externals}.

Definition bind_param (v : jsval) : sqlval :=
  match v with
  | JStr s => SText s
  | _ => bind_other v
  end.

(** ---------- Utilidades DB ---------- *)

Definition env_failure : exn := SqlError "SQLITE_IOERR".

(** Every storage call first asks the environment whether it fails. *)
Definition storage_call : M unit :=
  fun w =>
    match faults w with
    | true :: fs => (Throw env_failure, set_faults w fs)
    | false :: fs => (Ok tt, set_faults w fs)
    | [] => (Ok tt, w)
    end.

Definition statement (s : stmt) (params : list jsval) : M (list row) :=
  storage_call ;;
  fun w =>
    match sql_step (db w) (now w) s (map bind_param params) with
    | Done (d, rows) => (Ok rows, set_db w d)
    | Fail e => (Throw e, w)
    end.

Definition run (sql : stmt) (params : list jsval) : M unit :=
  statement sql params ;; ret tt.

Definition get (sql : stmt) (params : list jsval) : M (option row) :=
  rows <- statement sql params ;; ret (head rows).

Definition all (sql : stmt) (params : list jsval) : M (list row) :=
  statement sql params.

Definition exec (script : list stmt) : M unit :=
  storage_call ;;
  fun w =>
    match sql_script (db w) (now w) script with
    | (d, None) => (Ok tt, set_db w d)
    | (d, Some e) => (Throw e, set_db w d)
    end.

(** ---------- Inicialización ---------- *)

Definition read_schema : M (option (list stmt)) :=
  fun w => (Ok (schema_file w), w).

Definition create_if_missing (name : string) (cols : list column) : M unit :=
  need <- get (SelectMasterTable name) [] ;;
  match need with
  | None => run (CreateTableIfNotExists name cols) []
  | Some _ => ret tt
  end.

Definition ensureSchema : M unit :=
  run (Pragma "journal_mode" "WAL") [] ;;
  run (Pragma "foreign_keys" "ON") [] ;;
  schema <- read_schema ;;
  match schema with
  | Some [] => ret tt                    (* schema.trim() is empty *)
  | Some script => exec script
  | None => ret tt                       (* no schema.sql *)
  end ;;
  create_if_missing "services" services_cols ;;
  create_if_missing "users" users_cols ;;
  create_if_missing "messages" messages_cols ;;
  console_log "Esquema verificado/aplicado correctamente.".

Definition default_services : list (list string) := [
  ["Hosting Web Compartido"; "Desde $5.99 Anual";
   "Plan rápido, seguro y económico para iniciar tu sitio."];
  ["Servidores VPS"; "Desde $8.99 Mensual";
   "Control total, rendimiento dedicado y escalabilidad."];
  ["Correo Corporativo"; "Incluido 1er año";
   "Dominios y cuentas corporativas con soporte 24/7."] ].

(** [for (const s of services) await run(INSERT .., s)] *)
Fixpoint insert_services (l : list (list string)) : M unit :=
  match l with
  | [] => ret tt
  | s :: rest =>
      run (InsertInto "services" ["title"; "price"; "summary"]) (map JStr s) ;;
      insert_services rest
  end.

Definition seedIfEmpty : M unit :=
  row <- get (SelectCount "users") [] ;;
  match row with
  | None => throw (TypeError "row is undefined")
  | Some r =>
      if bool_decide (assoc "c" r = Some (SInt 0)) then
        let hash := bcrypt_hash "Admin*1234" 10 in
        run (InsertInto "users" ["username"; "password_hash"; "name"])
            [JStr "admin"; JStr hash; JStr "Administrador"] ;;
        insert_services default_services ;;
        console_log
          "BD inicializada con usuario admin / Admin*1234 y servicios de ejemplo."
      else ret tt
  end.

(** The init IIFE of server.js; [argv_init] is
    [process.argv.includes('--init')]. *)
Definition init (argv_init : bool) : M unit :=
  try_catch
    (ensureSchema ;;
     if argv_init then
       seedIfEmpty ;;
       console_log "Init completo. Puedes cerrar este proceso." ;;
       process_exit 0
     else seedIfEmpty)
    (fun e => console_error "Error al inicializar el esquema/seed:" e).

(** The init IIFE of the second revision, which has no [--init] switch.
    (That revision first creates a missing data.db from schema.sql over a
    connection of its own; that block is not part of the IIFE.) *)
Definition init_r2 : M unit :=
  try_catch
    (ensureSchema ;; seedIfEmpty)
    (fun e => console_error "Error al inicializar el esquema/seed:" e).

(** What becomes of the server.js process once the module has been loaded:
    [app.listen] is reached in any case, so the process serves requests
    unless the init IIFE exits it.  An exception escaping the IIFE would be
    an unhandled rejection. *)
Inductive process : Type :=
  | Listening
  | Exited (code : Z)
  | Crashed (e : exn).

Definition startup (argv_init : bool) (w : world) : process * world :=
  match init argv_init w with
  | (Ok _, w') => (Listening, w')
  | (Exit c, w') => (Exited c, w')
  | (Throw e, w') => (Crashed e, w')
  end.

(** ---------- App ---------- *)

Inductive method : Type := GET | POST.

Global Instance method_eq_dec : EqDecision method.
Proof. solve_decision. Defined.

(** An incoming request.  [r_cookie] is the session id of a correctly
    signed session cookie, if the client sent one; [r_nonce] is the id
    express-session draws for the request when it has to start a fresh
    session. *)
Record request : Type := Request {
  r_method : method;
  r_path : string;
  r_cookie : option string;
  r_body : jsval;
  r_nonce : string
}.

(** What the handlers see of [req]: [req.sessionID], [req.session] and
    [req.body]. *)
Record ctx : Type := Ctx {
  sid : string;
  session : sess;
  body : jsval
}.

(** The session middleware: the stored session of the cookie's id when the
    store has one, otherwise a fresh, empty session (kept out of the store
    until something is written to it: [saveUninitialized: false]). *)
Definition load_session (w : world) (req : request) : ctx :=
  match r_cookie req with
  | Some t =>
      match sessions w !! t with
      | Some s => Ctx t s (r_body req)
      | None => Ctx (r_nonce req) (Sess None) (r_body req)
      end
  | None => Ctx (r_nonce req) (Sess None) (r_body req)
  end.

(** Values handed to a template. *)
Inductive local : Type :=
  | VNull
  | VStr (s : string)
  | VUser (u : option identity)      (* req.session.user *)
  | VRow (r : option row)            (* a row, or undefined *)
  | VRows (rs : list row).

Inductive response : Type :=
  | Redirect (location : string)
  | Render (view : string) (locals : list (string * local))
  | Send (status : nat) (text : string)
  | NotFound.

(** Middleware de protección *)
Inductive gate : Type :=
  | Next
  | Respond (r : response).

Definition requireAuth (c : ctx) : gate :=
  match s_user (session c) with
  | Some _ => Next
  | None => Respond (Redirect "/login")
  end.

(** [req.session.user = ident]; the session is written to the store when
    the response ends. *)
Definition set_session_user (c : ctx) (ident : identity) : M unit :=
  fun w => (Ok tt, set_sessions w (<[sid c := Sess (Some ident)]> (sessions w))).

(** [req.session.destroy(cb)] *)
Definition session_destroy (c : ctx) : M unit :=
  fun w => (Ok tt, set_sessions w (delete (sid c) (sessions w))).

Definition invalid_credentials : string := "Usuario o contraseña inválidos".

Definition user_local (c : ctx) : string * local :=
  ("user", VUser (s_user (session c))).

(** --------- Rutas públicas ---------- *)

Definition root_get (c : ctx) : M response := ret (Redirect "/login").

Definition login_get (c : ctx) : M response :=
  match s_user (session c) with
  | Some _ => ret (Redirect "/dashboard")
  | None => ret (Render "login" [("error", VNull)])
  end.

Definition login_post (c : ctx) : M response :=
  try_catch
    (let username := get_field (body c) "username" in
     let password := get_field (body c) "password" in
     user <- get (SelectWhereEq "users" "username") [username] ;;
     match user with
     | None => ret (Render "login" [("error", VStr invalid_credentials)])
     | Some u =>
         match bcrypt_compare password (assoc "password_hash" u) with
         | None => throw (LibError "bcrypt.compare")
         | Some false =>
             ret (Render "login" [("error", VStr invalid_credentials)])
         | Some true =>
             set_session_user c
               (Identity (assoc "id" u) (assoc "name" u) (assoc "username" u)) ;;
             ret (Redirect "/dashboard")
         end
     end)
    (fun e =>
       console_error "Error en login:" e ;;
       ret (Render "login" [("error", VStr "Error interno. Intenta de nuevo.")])).

Definition logout_post (c : ctx) : M response :=
  session_destroy c ;; ret (Redirect "/login").

(** --------- Rutas privadas ---------- *)

Definition dashboard_get (c : ctx) : M response :=
  try_catch
    (services <- all (SelectAll "services") [] ;;
     ret (Render "dashboard" [user_local c; ("services", VRows services)]))
    (fun e =>
       console_error "Error cargando dashboard:" e ;;
       ret (Send 500 "Error cargando dashboard")).

Definition about_get (c : ctx) : M response :=
  ret (Render "about" [user_local c]).

Definition contact_get (c : ctx) : M response :=
  ret (Render "contact" [user_local c; ("ok", VNull)]).

(** [Array.isArray(topics) ? topics.join(', ') : String(topics || '')],
    with [topics] defaulting to [[]] when the body has none. *)
Definition topicsStr (b : jsval) : option string :=
  let topics :=
    match get_field b "topics" with
    | JUndefined => JArr []
    | v => v
    end in
  match topics with
  | JArr xs => join ", " xs
  | _ => String_ (js_or topics (JStr ""))
  end.

Definition contact_post (c : ctx) : M response :=
  try_catch
    (let name := get_field (body c) "name" in
     let email := get_field (body c) "email" in
     let message := get_field (body c) "message" in
     match topicsStr (body c) with
     | None => throw (TypeError "Cannot convert object to primitive value")
     | Some ts =>
         run (InsertInto "messages" ["name"; "email"; "message"; "topics"])
             [name; email; message; JStr ts] ;;
         ret (Render "contact"
                [user_local c; ("ok", VStr "Mensaje enviado correctamente.")])
     end)
    (fun e =>
       console_error "Error guardando mensaje:" e ;;
       ret (Render "contact"
              [user_local c;
               ("ok", VStr "No se pudo enviar. Intenta nuevamente.")])).

(** ---------- Páginas de servicios ---------- *)

Definition hosting_title : string := "Hosting Web Compartido".

Definition hosting_get (c : ctx) : M response :=
  try_catch
    (hosting <- get (SelectWhereEq "services" "title") [JStr hosting_title] ;;
     ret (Render "hosting" [user_local c; ("hosting", VRow hosting)]))
    (fun e =>
       console_error "Error cargando hosting:" e ;;
       ret (Send 500 "Error cargando hosting")).

Definition service_page_get (page : string) (c : ctx) : M response :=
  ret (Render ("services/" +:+ page) [user_local c]).

Definition servicePages : list string :=
  ["vps"; "dedicados"; "dominios"; "ssl"; "backup"; "correo"; "seguridad";
   "monitoreo"; "creador"].

(** *** The routing table *)

Inductive handler : Type :=
  | h_root
  | h_login_get
  | h_login_post
  | h_logout
  | h_dashboard
  | h_about
  | h_contact_get
  | h_contact_post
  | h_hosting
  | h_service_page (page : string).

Global Instance handler_eq_dec : EqDecision handler.
Proof. solve_decision. Defined.

Definition run_handler (h : handler) : ctx -> M response :=
  match h with
  | h_root => root_get
  | h_login_get => login_get
  | h_login_post => login_post
  | h_logout => logout_post
  | h_dashboard => dashboard_get
  | h_about => about_get
  | h_contact_get => contact_get
  | h_contact_post => contact_post
  | h_hosting => hosting_get
  | h_service_page page => service_page_get page
  end.

(** The callbacks registered on a route, in order. *)
Inductive callback : Type :=
  | cb_requireAuth
  | cb_handler (h : handler).

Global Instance callback_eq_dec : EqDecision callback.
Proof. solve_decision. Defined.

Record route : Type := Route {
  rt_method : method;
  rt_path : string;
  rt_chain : list callback
}.

Definition public (m : method) (p : string) (h : handler) : route :=
  Route m p [cb_handler h].

Definition protected (m : method) (p : string) (h : handler) : route :=
  Route m p [cb_requireAuth; cb_handler h].

(** server.js: one [app.get]/[app.post] per route. *)
Definition routes : list route := [
  public GET "/" h_root;
  public GET "/login" h_login_get;
  public POST "/login" h_login_post;
  public POST "/logout" h_logout;
  protected GET "/dashboard" h_dashboard;
  protected GET "/about" h_about;
  protected GET "/contact" h_contact_get;
  protected POST "/contact" h_contact_post;
  protected GET "/hosting" h_hosting;
  protected GET "/vps" (h_service_page "vps");
  protected GET "/dedicados" (h_service_page "dedicados");
  protected GET "/dominios" (h_service_page "dominios");
  protected GET "/ssl" (h_service_page "ssl");
  protected GET "/backup" (h_service_page "backup");
  protected GET "/correo" (h_service_page "correo");
  protected GET "/seguridad" (h_service_page "seguridad");
  protected GET "/monitoreo" (h_service_page "monitoreo");
  protected GET "/creador" (h_service_page "creador") ].

(** Second revision: the service pages are registered in a loop. *)
Definition routes_r2 : list route :=
  [ public GET "/" h_root;
    public GET "/login" h_login_get;
    public POST "/login" h_login_post;
    public POST "/logout" h_logout;
    protected GET "/dashboard" h_dashboard;
    protected GET "/about" h_about;
    protected GET "/contact" h_contact_get;
    protected POST "/contact" h_contact_post;
    protected GET "/hosting" h_hosting ]
  ++ map (fun page => protected GET ("/" +:+ page) (h_service_page page))
         servicePages.

(** Runs the callbacks of a route; the result carries the callbacks that
    were invoked, in order, next to the response. *)
Fixpoint run_chain (chain : list callback) (c : ctx)
    : M (list callback * response) :=
  match chain with
  | [] => ret ([], NotFound)
  | cb_requireAuth :: rest =>
      match requireAuth c with
      | Next =>
          r <- run_chain rest c ;;
          ret (cb_requireAuth :: fst r, snd r)
      | Respond resp => ret ([cb_requireAuth], resp)
      end
  | cb_handler h :: _ =>
      resp <- run_handler h c ;;
      ret ([cb_handler h], resp)
  end.

(** *** Matching a path against a route

    The app is a default [express()]: routing is case-insensitive and not
    strict.  A route path [p] is compiled to the pattern [^p/?$] with flag
    [i] (to [^p?$] when [p] itself ends with a slash, as "/" does), and the
    pattern is tried on the pathname of the request as it was sent (no
    percent-decoding).  The routes of this program are made of ASCII letters
    and slashes, so the pattern accepts the route path in any letter case,
    with or without one trailing slash. *)

(** Flag [i] on a pattern of ASCII letters: A-Z and a-z are identified,
    every other byte stands for itself. *)
Definition lower_ascii (c : ascii) : ascii :=
  let n := N_of_ascii c in
  if ((65 <=? n) && (n <=? 90))%N then ascii_of_N (n + 32) else c.

Fixpoint fold_case (s : string) : string :=
  match s with
  | EmptyString => EmptyString
  | String c s' => String (lower_ascii c) (fold_case s')
  end.

Definition ci_eqb (a b : string) : bool :=
  string_eqb (fold_case a) (fold_case b).

(** [Some r] when the string is [r] followed by one final slash. *)
Fixpoint strip_slash (s : string) : option string :=
  match s with
  | EmptyString => None
  | String c EmptyString =>
      if Ascii.eqb c "/"%char then Some EmptyString else None
  | String c s' => String c <$> strip_slash s'
  end.

(** Does the pattern of route path [p] accept the pathname [path]? *)
Definition path_matches (p path : string) : bool :=
  match strip_slash p with
  | Some r => ci_eqb path p || ci_eqb path r
  | None => ci_eqb path p || ci_eqb path (p +:+ "/")
  end.

(** A route matches a request of its method whose pathname its pattern
    accepts.  (Requests of other methods than GET and POST are outside the
    model.) *)
Definition matches (req : request) (rt : route) : bool :=
  bool_decide (rt_method rt = r_method req) &&
  path_matches (rt_path rt) (r_path req).

Definition find_route (table : list route) (req : request) : option route :=
  find (matches req) table.

(** One request through the session middleware and the router. *)
Definition dispatch (table : list route) (req : request)
    : M (list callback * response) :=
  fun w =>
    match find_route table req with
    | Some rt => run_chain (rt_chain rt) (load_session w req) w
    | None => (Ok ([], NotFound), w)
    end.

Definition handle (req : request) : M (list callback * response) :=
  dispatch routes req.

End Server.

(** * Vocabulary of the properties *)

(** The identity a request's session cookie resolves to: the cookie names a
    session of the store and that session carries a user. *)
Definition resolve_identity (w : world) (req : request) : option identity :=
  match r_cookie req with
  | Some t =>
      match sessions w !! t with
      | Some s => s_user s
      | None => None
      end
  | None => None
  end.

(** The endpoints registered behind [requireAuth]. *)
Definition protected_endpoints : list (method * string) :=
  [ (GET, "/dashboard"); (GET, "/about"); (GET, "/contact"); (POST, "/contact");
    (GET, "/hosting") ]
  ++ map (fun page => (GET, "/" +:+ page)) servicePages.

(** No storage call is scheduled to fail. *)
Definition fault_free (w : world) : Prop := faults w = [].

(** The world after [console.error(msg, e)]. *)
Definition logged (msg : string) (e : exn) (w : world) : world :=
  set_console w (console w ++ [LogError msg e]).

Section Vocabulary.
Context `{Ext : Externals}.

Local Open Scope M_scope.

Definition never_exits {A} (m : M A) : Prop :=
  forall w c w', m w <> (Exit c, w').

Definition always_ok {A} (m : M A) : Prop :=
  forall w, exists a w', m w = (Ok a, w').

Definition no_fault_next (w : world) : Prop := head (faults w) <> Some true.

(** The world once the environment has let one storage call through. *)
Definition after_call (w : world) : world := set_faults w (tail (faults w)).

(** The first row of [services] whose [title] is exactly the constant. *)
Definition hosting_row (t : table) : option row :=
  find (fun r => bool_decide (assoc "title" r = Some (SText hosting_title)))
       (t_rows t).

Definition user_row (id : Z) (username hash name : string) : row :=
  [("id", SInt id); ("username", SText username);
   ("password_hash", SText hash); ("name", SText name)].

Definition service_row (id : Z) (title price summary : string) : row :=
  [("id", SInt id); ("title", SText title);
   ("price", SText price); ("summary", SText summary)].

Definition message_row (id : Z) (name email message : sqlval)
    (topics created_at : string) : row :=
  [("id", SInt id); ("name", name); ("email", email); ("message", message);
   ("topics", SText topics); ("created_at", SText created_at)].

Definition admin_row (i : Z) : row :=
  user_row i "admin" (bcrypt_hash "Admin*1234" 10) "Administrador".

Definition seeded_services (i : Z) : list row := [
  service_row i "Hosting Web Compartido" "Desde $5.99 Anual"
    "Plan rápido, seguro y económico para iniciar tu sitio.";
  service_row (i + 1) "Servidores VPS" "Desde $8.99 Mensual"
    "Control total, rendimiento dedicado y escalabilidad.";
  service_row (i + 2) "Correo Corporativo" "Incluido 1er año"
    "Dominios y cuentas corporativas con soporte 24/7." ].

Definition is_ddl (s : stmt) : bool :=
  match s with
  | Comment _ | CreateTableIfNotExists _ _ => true
  | _ => false
  end.

(** The schema file, when there is one, holds nothing but comments and
    [CREATE TABLE IF NOT EXISTS] statements, as schema.sql does. *)
Definition ddl_only (sf : option (list stmt)) : Prop :=
  match sf with
  | Some script => forallb is_ddl script = true
  | None => True
  end.

Definition ensure_table (name : string) (cols : list column) (d : database)
    : database :=
  match tables d !! name with
  | Some _ => d
  | None => with_tables d (<[name := Table cols [] 0]> (tables d))
  end.

Definition apply_ddl (d : database) (s : stmt) : database :=
  match s with
  | CreateTableIfNotExists name cols => ensure_table name cols d
  | _ => d
  end.

Definition set_pragma (k v : string) (d : database) : database :=
  Database (tables d) (<[k := v]> (pragmas d)).

(** The database [ensureSchema] leaves behind when nothing fails. *)
Definition migrated (sf : option (list stmt)) (d : database) : database :=
  ensure_table "messages" messages_cols
    (ensure_table "users" users_cols
       (ensure_table "services" services_cols
          (foldl apply_ddl
             (set_pragma "foreign_keys" "ON" (set_pragma "journal_mode" "WAL" d))
             (default [] sf)))).

Definition keeps (d d' : database) : Prop :=
  pragmas d' = pragmas d /\
  forall k t, tables d !! k = Some t -> tables d' !! k = Some t.

Definition schema_ok_msg : string := "Esquema verificado/aplicado correctamente.".

Definition contact_trace : list callback :=
  [cb_requireAuth; cb_handler h_contact_post].

Definition contact_notice (u : identity) (msg : string) : response :=
  Render "contact" [("user", VUser (Some u)); ("ok", VStr msg)].

Definition contact_success : string := "Mensaje enviado correctamente.".
Definition contact_failure : string := "No se pudo enviar. Intenta nuevamente.".
Definition contact_error_msg : string := "Error guardando mensaje:".

(** The insert a contact submission with body [b] and topics text [ts]
    performs. *)
Definition contact_insert (b : jsval) (ts : string) : M unit :=
  run (InsertInto "messages" ["name"; "email"; "message"; "topics"])
      [get_field b "name"; get_field b "email"; get_field b "message"; JStr ts].

(** [w'] is [w] with exactly one row [r] appended to [messages]; the
    other tables are untouched. *)
Definition message_added (w w' : world) (r : row) : Prop :=
  exists t,
    tables (db w) !! "messages" = Some t /\
    tables (db w') =
      <["messages" := Table (t_cols t) (t_rows t ++ [r]) (bump_seq t r)]>
        (tables (db w)).

Definition init_error_msg : string := "Error al inicializar el esquema/seed:".

(** *** Footprints of computations *)

(** Every run of [m] relates the world before to the world after by [R],
    whatever the outcome. *)
Definition preserves {A} (R : world -> world -> Prop) (m : M A) : Prop :=
  forall w o w', m w = (o, w') -> R w w'.

(** Relations on worlds that compose along a computation and do not look
    at the fault schedule or the console. *)
Record frame (R : world -> world -> Prop) : Prop := Frame {
  fr_refl : forall w, R w w;
  fr_trans : forall w1 w2 w3, R w1 w2 -> R w2 w3 -> R w1 w3;
  fr_faults : forall w fs, R w (set_faults w fs);
  fr_console : forall w c, R w (set_console w c)
}.

Definition same_db (w w' : world) : Prop := db w' = db w.

Definition same_sessions (w w' : world) : Prop := sessions w' = sessions w.

(** The session store agrees everywhere except possibly at id [s]. *)
Definition sessions_off (s : string) (w w' : world) : Prop :=
  forall t, t <> s -> sessions w' !! t = sessions w !! t.

(** Every session of the store carries a user. *)
Definition sessions_have_users (w : world) : Prop :=
  forall t s, sessions w !! t = Some s -> is_Some (s_user s).

Definition keeps_users (w w' : world) : Prop :=
  sessions_have_users w -> sessions_have_users w'.

(** Statements that read. *)
Definition is_query (s : stmt) : bool :=
  match s with
  | Comment _ | SelectMasterTable _ | SelectCount _ | SelectWhereEq _ _
  | SelectAll _ => true
  | _ => false
  end.

(** [m] makes at most [n] storage calls: it consumes at most [n] entries
    of the fault schedule. *)
Definition calls (n : nat) {A} (m : M A) : Prop :=
  forall w o w', m w = (o, w') ->
    exists k, (k <= n)%nat /\ faults w' = drop k (faults w).

(** The endpoint a handler is registered on. *)
Definition route_of (h : handler) : method * string :=
  match h with
  | h_root => (GET, "/")
  | h_login_get => (GET, "/login")
  | h_login_post => (POST, "/login")
  | h_logout => (POST, "/logout")
  | h_dashboard => (GET, "/dashboard")
  | h_about => (GET, "/about")
  | h_contact_get => (GET, "/contact")
  | h_contact_post => (POST, "/contact")
  | h_hosting => (GET, "/hosting")
  | h_service_page page => (GET, "/" +:+ page)
  end.

(** The request is one the router hands to handler [h]: it has the method
    of [h]'s endpoint and a pathname the endpoint's pattern accepts. *)
Definition routed (req : request) (h : handler) : Prop :=
  fst (route_of h) = r_method req /\
  path_matches (snd (route_of h)) (r_path req) = true.

(** The identity the login handler builds from a row of [users]. *)
Definition identity_of (u : row) : identity :=
  Identity (assoc "id" u) (assoc "name" u) (assoc "username" u).

Definition login_error_msg : string := "Error en login:".

Definition internal_error : response :=
  Render "login" [("error", VStr "Error interno. Intenta de nuevo.")].

(** The pages that render without reading anything: path, view, and the
    locals passed besides [user]. *)
Definition static_pages : list (string * string * list (string * local)) :=
  [ ("/about", "about", []); ("/contact", "contact", [("ok", VNull)]) ]
  ++ map (fun page => ("/" +:+ page, "services/" +:+ page, [])) servicePages.

(** The two pages that read [services]: handler and the text sent with
    status 500 when the read fails. *)
Definition reading_page (path : string) : handler * string :=
  if string_eqb path "/dashboard"
  then (h_dashboard, "Error cargando dashboard")
  else (h_hosting, "Error cargando hosting").

(** The table schema creation makes under a name, if it makes one. *)
Definition canonical_table (name : string) : option table :=
  if decide (name = "users") then Some (Table users_cols [] 0)
  else if decide (name = "services") then Some (Table services_cols [] 0)
  else if decide (name = "messages") then Some (Table messages_cols [] 0)
  else None.

(** The schema file is missing, blank, or the schema.sql of the
    repository. *)
Definition stock_schema (sf : option (list stmt)) : Prop :=
  sf = None \/ sf = Some [] \/ sf = Some schema_sql.

(** Tables are kept as they are (others may have been added), as long as
    the schema file holds only comments and table creations. *)
Definition tables_kept (w w' : world) : Prop :=
  ddl_only (schema_file w) ->
  schema_file w' = schema_file w /\
  forall k t, tables (db w) !! k = Some t -> tables (db w') !! k = Some t.

(** Every table is still there, with its columns, and its former rows are
    the first of its rows. *)
Definition rows_grow (w w' : world) : Prop :=
  forall k t, tables (db w) !! k = Some t ->
    exists t', tables (db w') !! k = Some t' /\
               t_cols t' = t_cols t /\
               exists extra, t_rows t' = (t_rows t ++ extra)%list.

(** The identity of the seeded administrator whose row has id [i]. *)
Definition admin_identity_at (i : Z) : identity :=
  Identity (Some (SInt i)) (Some (SText "Administrador")) (Some (SText "admin")).

(** Values whose string conversion goes through: everything but an object
    with an own [toString] key, and arrays holding such an object at any
    depth. *)
Fixpoint convertible (v : jsval) : bool :=
  match v with
  | JArr xs => forallb convertible xs
  | JObj fs => match assoc "toString" fs with Some _ => false | None => true end
  | _ => true
  end.

Definition conversion_error : exn :=
  TypeError "Cannot convert object to primitive value".

End Vocabulary.

(** ** Samples

    A sample instance of the collaborators, for the examples: the hash
    tags the password, the comparison checks the tag and throws on
    non-strings, non-string parameters are bound as NULL. *)
Definition sample_externals : Externals := {|
  bcrypt_hash := fun pw _ => "$2a$" +:+ pw;
  bcrypt_compare := fun pw h =>
    match pw, h with
    | JStr p, Some (SText s) => Some (string_eqb s ("$2a$" +:+ p))
    | _, _ => None
    end;
  bind_other := fun _ => SNull
|}.

Definition empty_db : database := Database ∅ ∅.

Definition fresh_world : world :=
  World empty_db (Some schema_sql) ∅ [] "2024-01-01 00:00:00" [].

(** The fresh database after schema creation. *)
Definition schema_world : world :=
  snd (@ensureSchema sample_externals fresh_world).

(** The world after a first start: schema created and seeded. *)
Definition ready_world : world :=
  snd (@startup sample_externals false fresh_world).

(** A world whose first storage call fails. *)
Definition failing_world : world :=
  World empty_db (Some schema_sql) ∅ [true] "2024-01-01 00:00:00" [].

(** A world whose ninth storage call fails: schema creation takes six
    calls, the count of users and the insert of the administrator two more,
    and the insert of the first service is the one that fails. *)
Definition seed_failing_world : world :=
  World empty_db (Some schema_sql) ∅
    [false; false; false; false; false; false; false; false; true]
    "2024-01-01 00:00:00" [].

Definition anonymous_dashboard : request :=
  Request GET "/dashboard" None (JObj []) "sid-1".

Definition anonymous_logout : request :=
  Request POST "/logout" None (JObj []) "sid-1".

Definition hosting_request : request :=
  Request GET "/hosting" None (JObj []) "sid-2".

Definition credentials (username password : string) : jsval :=
  JObj [("username", JStr username); ("password", JStr password)].

Definition login_admin : request :=
  Request POST "/login" None (credentials "admin" "Admin*1234") "sid-1".

Definition login_wrong_password : request :=
  Request POST "/login" None (credentials "admin" "wrong") "sid-1".

Definition login_unknown_user : request :=
  Request POST "/login" None (credentials "nouser" "x") "sid-1".

(** The same request, sent with the cookie of session "sid-1". *)
Definition with_cookie (req : request) : request :=
  Request (r_method req) (r_path req) (Some "sid-1") (r_body req) (r_nonce req).

Definition admin_identity : identity :=
  Identity (Some (SInt 1)) (Some (SText "Administrador")) (Some (SText "admin")).

(** The world once the administrator has logged in. *)
Definition logged_in_world : world :=
  snd (@handle sample_externals login_admin ready_world).

(** A logged-in world whose [services] table is empty. *)
Definition unseeded_world : world :=
  set_sessions schema_world {[ "sid-1" := Sess (Some admin_identity) ]}.

Definition contact_form (fields : list (string * jsval)) : request :=
  Request POST "/contact" (Some "sid-1") (JObj fields) "sid-3".

Definition contact_two_topics : request :=
  contact_form [("name", JStr "Ana"); ("email", JStr "ana@example.com");
                ("message", JStr "Hola");
                ("topics", JArr [JStr "billing"; JStr "support"])].

Definition contact_one_topic : request :=
  contact_form [("name", JStr "Ana"); ("email", JStr "ana@example.com");
                ("message", JStr "Hola"); ("topics", JStr "billing")].

Definition contact_no_topic : request :=
  contact_form [("name", JStr "Ana"); ("email", JStr "ana@example.com");
                ("message", JStr "Hola")].

Definition contact_nameless : request :=
  contact_form [("email", JStr "ana@example.com"); ("message", JStr "Hola");
                ("topics", JStr "billing")].

Definition root_request : request := Request GET "/" None (JObj []) "sid-4".

Definition login_page_request : request :=
  Request GET "/login" (Some "sid-1") (JObj []) "sid-4".

Definition vps_request : request :=
  Request GET "/vps" (Some "sid-1") (JObj []) "sid-4".

(** The logged-in world with the storage layer down for the next call. *)
Definition down_world : world := set_faults logged_in_world [true].

(** The seeded world, restarted, with the third storage call of schema
    creation (the schema script) failing. *)
Definition interrupted_world : world := set_faults ready_world [false; false; true].

(** The seeded world with the next storage call failing. *)
Definition seeded_down_world : world := set_faults ready_world [true].

(** The schema-only world in which the third storage call of seeding (the
    insert of the first service) fails. *)
Definition half_seeded_world : world := set_faults schema_world [false; false; true].

(** An empty database and no schema.sql. *)
Definition no_schema_world : world :=
  World empty_db None ∅ [] "2024-01-01 00:00:00" [].

(** A JSON submission whose topics object shadows [toString]. *)
Definition contact_shadowed : request :=
  contact_form [("name", JStr "Ana"); ("email", JStr "ana@example.com");
                ("message", JStr "Hola");
                ("topics", JObj [("toString", JStr "x")])].

(** A submission of an untouched form: every field the empty string. *)
Definition contact_blank : request :=
  contact_form [("name", JStr ""); ("email", JStr ""); ("message", JStr "")].

(** Login submissions without a password field. *)
Definition login_unknown_no_password : request :=
  Request POST "/login" None (JObj [("username", JStr "nouser")]) "sid-1".

Definition login_admin_no_password : request :=
  Request POST "/login" None (JObj [("username", JStr "admin")]) "sid-1".

(** The contact form posted to /Contact/. *)
Definition contact_other_spelling : request :=
  Request POST "/Contact/" (Some "sid-1")
    (JObj [("name", JStr "Ana"); ("email", JStr "ana@example.com");
           ("message", JStr "Hola")]) "sid-3".

(** * Properties *)

Lemma string_eqb_eq a b : string_eqb a b = true <-> a = b.
Proof. unfold string_eqb. apply String.eqb_eq. Qed.

Lemma string_eqb_refl a : string_eqb a a = true.
Proof. by apply string_eqb_eq. Qed.

Section Properties.
Context `{Ext : Externals}.

Local Open Scope M_scope.

(** ** The monad and the storage layer *)

Lemma never_exits_ret {A} (a : A) : never_exits (ret a).
Proof. intros w c w'. unfold ret. congruence. Qed.

Lemma never_exits_throw {A} (e : exn) : never_exits (@throw A e).
Proof. intros w c w'. unfold throw. congruence. Qed.

Lemma never_exits_bind {A B} (m : M A) (k : A -> M B) :
  never_exits m -> (forall a, never_exits (k a)) -> never_exits (bind m k).
Proof.
  intros Hm Hk w c w'. unfold bind.
  destruct (m w) as [[a|e|c0] w1] eqn:E.
  - apply Hk.
  - congruence.
  - exfalso. eapply Hm. exact E.
Qed.

Lemma always_ok_never_exits {A} (m : M A) : always_ok m -> never_exits m.
Proof.
  intros H w c w' E. destruct (H w) as (a & w1 & Hw). congruence.
Qed.

Lemma always_ok_ret {A} (a : A) : always_ok (ret a).
Proof. intros w. by exists a, w. Qed.

Lemma always_ok_bind {A B} (m : M A) (k : A -> M B) :
  always_ok m -> (forall a, always_ok (k a)) -> always_ok (bind m k).
Proof.
  intros Hm Hk w. unfold bind. destruct (Hm w) as (a & w1 & ->). apply Hk.
Qed.

Lemma always_ok_try_catch {A} (m : M A) (h : exn -> M A) :
  never_exits m -> (forall e, always_ok (h e)) -> always_ok (try_catch m h).
Proof.
  intros Hm Hh w. unfold try_catch.
  destruct (m w) as [[a|e|c] w1] eqn:E.
  - by exists a, w1.
  - apply Hh.
  - exfalso. eapply Hm. exact E.
Qed.

Lemma always_ok_console_error msg e : always_ok (console_error msg e).
Proof. intros w. by eexists _, _. Qed.

Lemma always_ok_console_log msg : always_ok (console_log msg).
Proof. intros w. by eexists _, _. Qed.

Lemma never_exits_storage_call : never_exits storage_call.
Proof.
  intros w c w'. unfold storage_call.
  destruct (faults w) as [|[] fs]; congruence.
Qed.

Lemma never_exits_statement s ps : never_exits (statement s ps).
Proof.
  unfold statement. apply never_exits_bind; [apply never_exits_storage_call|].
  intros _ w c w'. destruct (sql_step _ _ _ _) as [[d rows]|e]; congruence.
Qed.

Lemma never_exits_run s ps : never_exits (run s ps).
Proof.
  unfold run. apply never_exits_bind; [apply never_exits_statement|].
  intros; apply never_exits_ret.
Qed.

Lemma never_exits_get s ps : never_exits (get s ps).
Proof.
  unfold get. apply never_exits_bind; [apply never_exits_statement|].
  intros; apply never_exits_ret.
Qed.

Lemma never_exits_all s ps : never_exits (all s ps).
Proof. apply never_exits_statement. Qed.

Lemma never_exits_exec script : never_exits (exec script).
Proof.
  unfold exec. apply never_exits_bind; [apply never_exits_storage_call|].
  intros _ w c w'. destruct (sql_script _ _ _) as [d [e|]]; congruence.
Qed.

(** Every handler answers: none throws, none exits the process. *)
Lemma run_handler_always_ok h c : always_ok (run_handler h c).
Proof.
  destruct h; simpl.
  - apply always_ok_ret.
  - unfold login_get. destruct (s_user (session c)); apply always_ok_ret.
  - unfold login_post. apply always_ok_try_catch.
    + apply never_exits_bind; [apply never_exits_get|].
      intros [u|]; [|apply never_exits_ret].
      destruct (bcrypt_compare _ _) as [[]|].
      * apply always_ok_never_exits, always_ok_bind; [|intros; apply always_ok_ret].
        intros w. by eexists _, _.
      * apply never_exits_ret.
      * apply never_exits_throw.
    + intros e. apply always_ok_bind; [apply always_ok_console_error|].
      intros; apply always_ok_ret.
  - unfold logout_post. apply always_ok_bind; [|intros; apply always_ok_ret].
    intros w. by eexists _, _.
  - unfold dashboard_get. apply always_ok_try_catch.
    + apply never_exits_bind; [apply never_exits_all|].
      intros; apply never_exits_ret.
    + intros e. apply always_ok_bind; [apply always_ok_console_error|].
      intros; apply always_ok_ret.
  - apply always_ok_ret.
  - apply always_ok_ret.
  - unfold contact_post. apply always_ok_try_catch.
    + destruct (topicsStr (body c)); [|apply never_exits_throw].
      apply never_exits_bind; [apply never_exits_run|].
      intros; apply never_exits_ret.
    + intros e. apply always_ok_bind; [apply always_ok_console_error|].
      intros; apply always_ok_ret.
  - unfold hosting_get. apply always_ok_try_catch.
    + apply never_exits_bind; [apply never_exits_get|].
      intros; apply never_exits_ret.
    + intros e. apply always_ok_bind; [apply always_ok_console_error|].
      intros; apply always_ok_ret.
  - apply always_ok_ret.
Qed.

(** ** Routing *)

Lemma routes_r2_eq : routes_r2 = routes.
Proof. reflexivity. Qed.

Lemma load_session_user w req :
  s_user (session (load_session w req)) = resolve_identity w req.
Proof.
  unfold load_session, resolve_identity.
  destruct (r_cookie req) as [t|]; [|done].
  by destruct (sessions w !! t).
Qed.

Lemma load_session_body w req : body (load_session w req) = r_body req.
Proof.
  unfold load_session. destruct (r_cookie req) as [t|]; [|done].
  by destruct (sessions w !! t).
Qed.

Lemma find_route_protected req :
  (r_method req, r_path req) ∈ protected_endpoints ->
  exists h,
    find_route routes req = Some (protected (r_method req) (r_path req) h).
Proof.
  destruct req as [m p ck b n]. simpl. intros H.
  unfold protected_endpoints in H. simpl in H.
  repeat (apply elem_of_cons in H as [H|H];
          [inversion H; subst; eexists; reflexivity|]).
  by apply elem_of_nil in H.
Qed.

Lemma run_chain_protected h c w :
  run_chain [cb_requireAuth; cb_handler h] c w =
  match s_user (session c) with
  | None => (Ok ([cb_requireAuth], Redirect "/login"), w)
  | Some _ =>
      match run_handler h c w with
      | (Ok resp, w') => (Ok ([cb_requireAuth; cb_handler h], resp), w')
      | (Throw e, w') => (Throw e, w')
      | (Exit code, w') => (Exit code, w')
      end
  end.
Proof.
  simpl. unfold requireAuth. destruct (s_user (session c)); [|done].
  unfold bind, ret. by destruct (run_handler h c w) as [[resp|e|code] w'].
Qed.


(** ** Storage calls that the environment lets through *)

Lemma storage_call_ok w :
  no_fault_next w -> storage_call w = (Ok tt, after_call w).
Proof.
  unfold no_fault_next, storage_call, after_call.
  destruct w as [d sf ss fs n cs]. simpl.
  destruct fs as [|[] fs]; simpl; [done | congruence | done].
Qed.

Lemma storage_call_fault w fs :
  faults w = true :: fs -> storage_call w = (Throw env_failure, set_faults w fs).
Proof. unfold storage_call. by intros ->. Qed.

Lemma sql_eqb_text v s :
  sql_eqb (default SNull v) (SText s) = true <-> v = Some (SText s).
Proof.
  unfold sql_eqb. destruct v as [[]|]; simpl;
    rewrite ?bool_decide_eq_true; split; intros H; try congruence; try done.
Qed.

Lemma head_select_where_text t col s :
  head (select_where t col (SText s)) =
  find (fun r => bool_decide (assoc col r = Some (SText s))) (t_rows t).
Proof.
  unfold select_where. induction (t_rows t) as [|r rs IH]; [done|].
  rewrite filter_cons. simpl. case_decide as Hd.
  - apply sql_eqb_text in Hd. by rewrite bool_decide_eq_true_2.
  - rewrite bool_decide_eq_false_2; [exact IH|].
    intros Hc. apply Hd. by apply sql_eqb_text.
Qed.

Lemma get_select_where w tbl col v t :
  no_fault_next w ->
  tables (db w) !! tbl = Some t ->
  has_col t col = true ->
  get (SelectWhereEq tbl col) [v] w =
    (Ok (head (select_where t col (bind_param v))), after_call w).
Proof.
  intros Hf Ht Hc. unfold get, statement, bind.
  rewrite (storage_call_ok w Hf). unfold sql_step. simpl.
  rewrite Ht, Hc. reflexivity.
Qed.

(** ** Login *)

(** The two explicit failure branches of the login handler agree.  Two
    login submissions against the same world, one whose username matches no
    row of [users], one whose username matches row [u] but for whose
    password bcrypt.compare resolves to false: the answers are the same
    rendering of the login form with the same generic message, the worlds
    afterwards are the same, and neither changed the session store. *)
Theorem login_failures_indistinguishable
    (w : world) (ra rb : request) (t : table) (u : row) :
  r_method ra = POST -> r_path ra = "/login" ->
  r_method rb = POST -> r_path rb = "/login" ->
  no_fault_next w ->
  tables (db w) !! "users" = Some t ->
  has_col t "username" = true ->
  head (select_where t "username"
          (bind_param (get_field (r_body ra) "username"))) = None ->
  head (select_where t "username"
          (bind_param (get_field (r_body rb) "username"))) = Some u ->
  bcrypt_compare (get_field (r_body rb) "password")
                 (assoc "password_hash" u) = Some false ->
  let answer :=
    (Ok ([cb_handler h_login_post],
         Render "login" [("error", VStr invalid_credentials)]),
     after_call w) in
  handle ra w = answer /\
  handle rb w = answer /\
  sessions (after_call w) = sessions w /\
  resolve_identity (after_call w) ra = resolve_identity w ra /\
  resolve_identity (after_call w) rb = resolve_identity w rb.
Proof.
  destruct ra as [ma pa cka ba na], rb as [mb pb ckb bb nb]. simpl.
  intros -> -> -> -> Hf Ht Hc Ha Hb Hcmp.
  repeat split.
  - unfold handle, dispatch. simpl.
    unfold login_post, try_catch, bind. simpl.
    rewrite (get_select_where w _ _ _ t Hf Ht Hc), load_session_body. simpl.
    rewrite Ha. reflexivity.
  - unfold handle, dispatch. simpl.
    unfold login_post, try_catch, bind. simpl.
    rewrite (get_select_where w _ _ _ t Hf Ht Hc), !load_session_body. simpl.
    rewrite Hb, Hcmp. reflexivity.
Qed.

(** ** The hosting page *)

(** C8.  An authenticated GET /hosting always answers (the handler neither
    throws nor exits).  When the lookup goes through, the template
    [hosting] is rendered with the session's user and with the first row of
    [services] whose title is exactly the constant "Hosting Web Compartido";
    when no row has that title, the value passed is the absent one. *)
Theorem hosting_lookup (req : request) (w : world) (u : identity) :
  r_method req = GET ->
  r_path req = "/hosting" ->
  resolve_identity w req = Some u ->
  (exists resp w',
     handle req w = (Ok ([cb_requireAuth; cb_handler h_hosting], resp), w')) /\
  (forall t,
     no_fault_next w ->
     tables (db w) !! "services" = Some t ->
     has_col t "title" = true ->
     handle req w =
       (Ok ([cb_requireAuth; cb_handler h_hosting],
            Render "hosting"
              [("user", VUser (Some u)); ("hosting", VRow (hosting_row t))]),
        after_call w) /\
     ((forall r, r ∈ t_rows t -> assoc "title" r <> Some (SText hosting_title)) ->
      hosting_row t = None)).
Proof.
  intros Hm Hp Hu.
  assert (Hd : handle req w =
                 run_chain [cb_requireAuth; cb_handler h_hosting]
                           (load_session w req) w).
  { destruct req as [m p ck b n]. simpl in Hm, Hp. subst. reflexivity. }
  rewrite Hd, run_chain_protected, load_session_user, Hu.
  split.
  - destruct (run_handler_always_ok h_hosting (load_session w req) w)
      as (resp & w' & Hr).
    exists resp, w'. by rewrite Hr.
  - intros t Hf Ht Hc. split.
    + simpl. unfold hosting_get, try_catch, bind.
      rewrite (get_select_where w _ _ _ t Hf Ht Hc). simpl.
      rewrite head_select_where_text. unfold user_local.
      rewrite load_session_user, Hu. reflexivity.
    + intros Hno. unfold hosting_row.
      match goal with |- ?x = None => destruct x as [r|] eqn:Hfind end; [|done].
      apply find_some in Hfind as [Hin Hr].
      apply bool_decide_eq_true in Hr.
      exfalso. apply (Hno r); [by apply list_elem_of_In | exact Hr].
Qed.

(** ** Inserts *)

Lemma run_throw_db s ps w e w1 :
  run s ps w = (Throw e, w1) -> db w1 = db w.
Proof.
  unfold run, statement, bind, storage_call, ret.
  destruct w as [d sf ss fs n cs]. simpl.
  destruct fs as [|[] fs]; simpl;
    try (destruct (sql_step _ _ _ _) as [[d' rows]|e']; simpl);
    intros H; inversion H; subst; reflexivity.
Qed.

Lemma run_cases s ps w :
  (exists e w1, run s ps w = (Throw e, w1)) \/ (exists w1, run s ps w = (Ok tt, w1)).
Proof.
  unfold run, statement, bind, storage_call, ret.
  destruct (faults w) as [|[] fs]; simpl;
    try (destruct (sql_step _ _ _ _) as [[d' rows]|e']; simpl); eauto.
Qed.

Lemma statement_ok s ps w rows w1 :
  statement s ps w = (Ok rows, w1) ->
  sql_step (db w) (now w) s (map bind_param ps) = Done (db w1, rows).
Proof.
  unfold statement, bind, storage_call.
  destruct w as [d sf ss fs n cs]. simpl.
  destruct fs as [|[] fs]; simpl;
    try (destruct (sql_step _ _ _ _) as [[d' rows']|e']; simpl);
    intros H; inversion H; subst; reflexivity.
Qed.

Lemma run_ok s ps w w1 :
  run s ps w = (Ok tt, w1) ->
  exists rows, sql_step (db w) (now w) s (map bind_param ps) = Done (db w1, rows).
Proof.
  unfold run, bind, ret.
  destruct (statement s ps w) as [[rows|e|c] w0] eqn:E; intros H; inversion H; subst.
  exists rows. by apply statement_ok.
Qed.

Lemma sql_step_insert d n tbl names ps d' rows :
  sql_step d n (InsertInto tbl names) ps = Done (d', rows) ->
  exists t,
    let r := new_row t n names ps in
    tables d !! tbl = Some t /\
    forallb (has_col t) names = true /\
    d' = with_tables d
           (<[tbl := Table (t_cols t) (t_rows t ++ [r]) (bump_seq t r)]> (tables d)).
Proof.
  unfold sql_step. case_bool_decide; [discriminate|].
  destruct (tables d !! tbl) as [t|]; [|discriminate].
  unfold insert_into.
  destruct (forallb (has_col t) names) eqn:Hcols; simpl; [|discriminate].
  destruct (notnull_ok t _); simpl; [|discriminate].
  destruct (unique_ok t _); simpl; [|discriminate].
  intros Hd. inversion Hd; subst. exists t. simpl. auto.
Qed.

Lemma run_insert_ok tbl names ps w w1 :
  run (InsertInto tbl names) ps w = (Ok tt, w1) ->
  exists t,
    let r := new_row t (now w) names (map bind_param ps) in
    tables (db w) !! tbl = Some t /\
    forallb (has_col t) names = true /\
    db w1 = with_tables (db w)
      (<[tbl := Table (t_cols t) (t_rows t ++ [r]) (bump_seq t r)]> (tables (db w))).
Proof.
  intros H. apply run_ok in H as [rows H]. by apply sql_step_insert in H.
Qed.

Lemma has_col_elem t k : has_col t k = true -> k ∈ map c_name (t_cols t).
Proof.
  unfold has_col. intros H. apply existsb_exists in H as (x & Hin & Hx).
  apply string_eqb_eq in Hx. subst. by apply list_elem_of_In.
Qed.

(** The value a fresh row holds in a column of the table comes from
    the first column of that name. *)
Lemma assoc_new_row t n names ps k :
  k ∈ map c_name (t_cols t) ->
  exists c, c ∈ t_cols t /\ c_name c = k /\
    assoc k (new_row t n names ps) = Some (insert_value t n names ps c).
Proof.
  unfold new_row. generalize (insert_value t n names ps) as f.
  induction (t_cols t) as [|c cs IH]; simpl; intros f Hk.
  - by apply elem_of_nil in Hk.
  - destruct (string_eqb k (c_name c)) eqn:E.
    + apply string_eqb_eq in E. exists c. split; [apply list_elem_of_here|]. done.
    + apply elem_of_cons in Hk as [Hk|Hk].
      * subst. by rewrite string_eqb_refl in E.
      * destruct (IH f Hk) as (c' & Hin & Hn & Ha).
        exists c'. split; [by apply list_elem_of_further|]. done.
Qed.

(** ** Rowids and inserts into the tables of schema.sql *)

Lemma row_id_le_max t pk r :
  pk_col t = Some pk -> r ∈ t_rows t -> row_id pk r <= max_id t.
Proof.
  unfold max_id. intros ->. induction (t_rows t) as [|r' rs IH]; intros Hin.
  - by apply elem_of_nil in Hin.
  - simpl. apply elem_of_cons in Hin as [->|Hin]; [lia|].
    specialize (IH Hin). lia.
Qed.

Lemma max_id_nonneg t : 0 <= max_id t.
Proof.
  unfold max_id. destruct (pk_col t); [|lia].
  induction (t_rows t) as [|r rs IH]; simpl; lia.
Qed.

(** The rowid AUTOINCREMENT hands out is not the id of any row. *)
Lemma fresh_rowid t pk :
  pk_col t = Some pk ->
  forallb (fun old =>
    negb (sql_eqb (SInt (next_rowid t)) (default SNull (assoc pk old))))
    (t_rows t) = true.
Proof.
  intros Hpk. apply forallb_forall. intros old Hin.
  apply list_elem_of_In in Hin.
  pose proof (row_id_le_max t pk old Hpk Hin) as Hle.
  unfold sql_eqb. simpl. apply negb_true_iff, bool_decide_eq_false.
  intros Heq. unfold row_id in Hle.
  destruct (assoc pk old) as [[]|]; simpl in Heq; try discriminate.
  inversion Heq; subst. unfold next_rowid in Hle. lia.
Qed.

Lemma max_id_snoc cols rows r seq seq' pk :
  pk_col (Table cols rows seq) = Some pk ->
  max_id (Table cols (rows ++ [r]) seq') =
  Z.max (max_id (Table cols rows seq)) (Z.max (row_id pk r) 0).
Proof.
  unfold max_id, pk_col. simpl. intros ->.
  induction rows as [|r' rs IH]; simpl; [lia|]. rewrite IH. lia.
Qed.

(** After a row with the fresh rowid went in, the next fresh rowid is one
    more. *)
Lemma next_rowid_snoc cols rows seq r pk i :
  pk_col (Table cols rows seq) = Some pk ->
  row_id pk r = i ->
  i = next_rowid (Table cols rows seq) ->
  next_rowid (Table cols (rows ++ [r]) (Z.max seq i)) = i + 1.
Proof.
  intros Hpk Hr Hi. unfold next_rowid at 1.
  rewrite (max_id_snoc cols rows r seq _ pk Hpk). simpl.
  rewrite Hr. pose proof (max_id_nonneg (Table cols rows seq)).
  unfold next_rowid in Hi. simpl in Hi. lia.
Qed.

Lemma insert_user_first rows seq n a b c :
  rows = [] ->
  insert_into (Table users_cols rows seq) n
    ["username"; "password_hash"; "name"] [SText a; SText b; SText c] =
  let i := next_rowid (Table users_cols rows seq) in
  Done (Table users_cols [user_row i a b c] (Z.max seq i)).
Proof. intros ->. reflexivity. Qed.

Lemma insert_service rows seq n a b c :
  insert_into (Table services_cols rows seq) n
    ["title"; "price"; "summary"] [SText a; SText b; SText c] =
  let i := next_rowid (Table services_cols rows seq) in
  Done (Table services_cols (rows ++ [service_row i a b c]) (Z.max seq i)).
Proof.
  unfold insert_into. simpl.
  pose proof (fresh_rowid (Table services_cols rows seq) "id" eq_refl) as Hf.
  simpl in Hf. unfold unique_ok, notnull_ok, new_row, insert_value. simpl.
  rewrite Hf. reflexivity.
Qed.

Lemma insert_message rows seq n a b c ts :
  is_null a = false -> is_null b = false -> is_null c = false ->
  insert_into (Table messages_cols rows seq) n
    ["name"; "email"; "message"; "topics"] [a; b; c; SText ts] =
  let i := next_rowid (Table messages_cols rows seq) in
  Done (Table messages_cols (rows ++ [message_row i a b c ts n]) (Z.max seq i)).
Proof.
  intros Ha Hb Hc. unfold insert_into. simpl.
  pose proof (fresh_rowid (Table messages_cols rows seq) "id" eq_refl) as Hf.
  simpl in Hf. unfold unique_ok, notnull_ok, new_row, insert_value. simpl.
  rewrite Hf, Ha, Hb, Hc. reflexivity.
Qed.

Lemma storage_call_quiet w : fault_free w -> storage_call w = (Ok tt, w).
Proof. unfold fault_free, storage_call. by intros ->. Qed.

Lemma run_insert_quiet w tbl names ps t t' :
  fault_free w ->
  tables (db w) !! tbl = Some t ->
  (length ps <= length names)%nat ->
  insert_into t (now w) names (map bind_param ps) = Done t' ->
  run (InsertInto tbl names) ps w =
    (Ok tt, set_db w (with_tables (db w) (<[tbl := t']> (tables (db w))))).
Proof.
  intros Hq Ht Hlen Hi. unfold run, statement, bind.
  rewrite (storage_call_quiet w Hq). unfold sql_step. simpl.
  rewrite bool_decide_eq_false_2 by (rewrite length_map; lia).
  rewrite Ht, Hi. reflexivity.
Qed.

Lemma get_count_quiet w tbl t :
  fault_free w ->
  tables (db w) !! tbl = Some t ->
  get (SelectCount tbl) [] w =
    (Ok (Some [("c", SInt (Z.of_nat (length (t_rows t))))]), w).
Proof.
  intros Hq Ht. unfold get, statement, bind.
  rewrite (storage_call_quiet w Hq). unfold sql_step. simpl.
  rewrite Ht. destruct w. reflexivity.
Qed.

(** ** Seeding *)

(** With a user in the table, seeding reads the count and stops. *)
Lemma seed_noop w tu :
  fault_free w ->
  tables (db w) !! "users" = Some tu ->
  t_rows tu <> [] ->
  seedIfEmpty w = (Ok tt, w).
Proof.
  intros Hq Hu Hne. unfold seedIfEmpty, bind at 1.
  rewrite (get_count_quiet w "users" tu Hq Hu). simpl.
  rewrite bool_decide_eq_false_2; [reflexivity|].
  intros Heq. inversion Heq as [Hlen].
  destruct (t_rows tu); [done | discriminate].
Qed.

(** On an empty [users] table, seeding inserts the administrator and the
    three services. *)
Lemma seed_first w tu ts :
  fault_free w ->
  tables (db w) !! "users" = Some tu ->
  t_cols tu = users_cols -> t_rows tu = [] ->
  tables (db w) !! "services" = Some ts ->
  t_cols ts = services_cols ->
  exists w1 su ss,
    seedIfEmpty w = (Ok tt, w1) /\
    fault_free w1 /\
    tables (db w1) !! "users" =
      Some (Table users_cols [admin_row (next_rowid tu)] su) /\
    tables (db w1) !! "services" =
      Some (Table services_cols
              (t_rows ts ++ seeded_services (next_rowid ts)) ss) /\
    (forall name, name <> "users" -> name <> "services" ->
       tables (db w1) !! name = tables (db w) !! name) /\
    pragmas (db w1) = pragmas (db w).
Proof.
  intros Hq Hu Hcu Hru Hs Hcs.
  destruct tu as [cu ru sequ], ts as [cs rs seqs]. simpl in *. subst.
  unfold seedIfEmpty, bind at 1.
  rewrite (get_count_quiet w "users" _ Hq Hu). simpl.
  unfold bind, ret, console_log.
  erewrite (run_insert_quiet w "users"); [|exact Hq|exact Hu|simpl; lia|
    apply insert_user_first; reflexivity].
  set (w1 := set_db w _). cbv beta iota.
  assert (Hq1 : fault_free w1) by exact Hq.
  assert (Hs1 : tables (db w1) !! "services" = Some (Table services_cols rs seqs)).
  { subst w1. simpl. by rewrite lookup_insert_ne. }
  erewrite (run_insert_quiet w1 "services"); [|exact Hq1|exact Hs1|simpl; lia|
    apply insert_service].
  set (w2 := set_db w1 _). cbv beta iota.
  assert (Hq2 : fault_free w2) by exact Hq.
  erewrite (run_insert_quiet w2 "services");
    [|exact Hq2|unfold w2; simpl; apply lookup_insert_eq|simpl; lia|
      apply insert_service].
  set (w3 := set_db w2 _). cbv beta iota.
  assert (Hq3 : fault_free w3) by exact Hq.
  erewrite (run_insert_quiet w3 "services");
    [|exact Hq3|unfold w3; simpl; apply lookup_insert_eq|simpl; lia|
      apply insert_service].
  set (w4 := set_db w3 _). cbv beta iota.
  eexists _, _, _. split; [reflexivity|].
  split; [exact Hq|].
  split; [|split; [|split]].
  - simpl. rewrite !lookup_insert_ne by done. rewrite lookup_insert_eq. reflexivity.
  - simpl. rewrite lookup_insert_eq. f_equal.
    set (i := next_rowid (Table services_cols rs seqs)).
    set (r1 := service_row i _ _ _).
    assert (H2 : next_rowid (Table services_cols (rs ++ [r1]) (Z.max seqs i))
                 = i + 1).
    { apply (next_rowid_snoc services_cols rs seqs r1 "id"); reflexivity. }
    rewrite H2.
    set (r2 := service_row (i + 1) _ _ _).
    assert (H3 : next_rowid
                   (Table services_cols ((rs ++ [r1]) ++ [r2])
                      (Z.max (Z.max seqs i) (i + 1))) = i + 1 + 1).
    { apply (next_rowid_snoc services_cols _ _ r2 "id");
        [reflexivity | reflexivity | by rewrite H2]. }
    rewrite H3.
    unfold seeded_services. rewrite <- !app_assoc. simpl.
    replace (i + 1 + 1) with (i + 2) by lia. reflexivity.
  - intros name Hn1 Hn2. simpl. by rewrite !lookup_insert_ne.
  - reflexivity.
Qed.

(** C2.  In a world where no storage call fails and [users] exists:
    when [users] has a row, seeding returns without touching anything (the
    world afterwards is the world before), whatever [services] and
    [messages] hold; when [users] is empty (and [users] and [services] have
    the columns of schema.sql), seeding succeeds, [users] then holds exactly
    one row, the administrator, [services] holds its former rows followed by
    exactly the three default services, every other table is as before, and
    seeding once more changes nothing. *)
Theorem seed_if_empty_once (w : world) (tu : table) :
  fault_free w ->
  tables (db w) !! "users" = Some tu ->
  (t_rows tu <> [] -> seedIfEmpty w = (Ok tt, w)) /\
  (t_rows tu = [] ->
   t_cols tu = users_cols ->
   forall ts,
     tables (db w) !! "services" = Some ts ->
     t_cols ts = services_cols ->
     exists w1 tu1 ts1,
       seedIfEmpty w = (Ok tt, w1) /\
       tables (db w1) !! "users" = Some tu1 /\
       t_rows tu1 = [admin_row (next_rowid tu)] /\
       length (t_rows tu1) = 1%nat /\
       tables (db w1) !! "services" = Some ts1 /\
       t_rows ts1 = (t_rows ts ++ seeded_services (next_rowid ts))%list /\
       length (t_rows ts1) = (length (t_rows ts) + 3)%nat /\
       (forall name, name <> "users" -> name <> "services" ->
          tables (db w1) !! name = tables (db w) !! name) /\
       seedIfEmpty w1 = (Ok tt, w1)).
Proof.
  intros Hq Hu. split.
  - intros Hne. by apply (seed_noop w tu).
  - intros Hru Hcu ts Hs Hcs.
    destruct (seed_first w tu ts Hq Hu Hcu Hru Hs Hcs)
      as (w1 & su & ss & Hseed & Hq1 & Hu1 & Hs1 & Hother & _).
    exists w1, (Table users_cols [admin_row (next_rowid tu)] su),
           (Table services_cols (t_rows ts ++ seeded_services (next_rowid ts)) ss).
    repeat split; try done.
    + simpl. rewrite length_app. reflexivity.
    + by apply (seed_noop w1 _ Hq1 Hu1).
Qed.

(** ** Schema creation *)

Lemma keeps_refl d : keeps d d.
Proof. by split. Qed.

Lemma keeps_trans d1 d2 d3 : keeps d1 d2 -> keeps d2 d3 -> keeps d1 d3.
Proof.
  intros [Hp1 H1] [Hp2 H2]. split; [congruence|].
  intros k t Hk. by apply H2, H1.
Qed.

Lemma ensure_table_keeps n c d : keeps d (ensure_table n c d).
Proof.
  unfold ensure_table. destruct (tables d !! n) as [t|] eqn:E.
  - apply keeps_refl.
  - split; [done|]. intros k t Hk. simpl.
    rewrite lookup_insert_ne; [done|]. intros ->. congruence.
Qed.

Lemma ensure_table_has n c d : is_Some (tables (ensure_table n c d) !! n).
Proof.
  unfold ensure_table. destruct (tables d !! n) as [t|] eqn:E.
  - by rewrite E.
  - simpl. rewrite lookup_insert_eq. by eexists.
Qed.

Lemma ensure_table_id n c d : is_Some (tables d !! n) -> ensure_table n c d = d.
Proof. intros [t Ht]. unfold ensure_table. by rewrite Ht. Qed.

Lemma ensure_table_new n c d k t :
  tables d !! k = None ->
  tables (ensure_table n c d) !! k = Some t ->
  t = Table c [] 0.
Proof.
  unfold ensure_table. destruct (tables d !! n) as [t'|] eqn:E.
  - congruence.
  - simpl. intros Hk. destruct (decide (n = k)) as [->|Hne].
    + rewrite lookup_insert_eq. congruence.
    + rewrite lookup_insert_ne by done. congruence.
Qed.

Lemma apply_ddl_keeps d s : keeps d (apply_ddl d s).
Proof.
  destruct s; simpl; try apply keeps_refl. apply ensure_table_keeps.
Qed.

Lemma foldl_ddl_keeps script d : keeps d (foldl apply_ddl d script).
Proof.
  revert d. induction script as [|s script IH]; intros d; simpl.
  - apply keeps_refl.
  - eapply keeps_trans; [apply apply_ddl_keeps | apply IH].
Qed.

Lemma foldl_ddl_has script d n c :
  CreateTableIfNotExists n c ∈ script ->
  is_Some (tables (foldl apply_ddl d script) !! n).
Proof.
  revert d. induction script as [|s script IH]; intros d Hin; simpl.
  - by apply elem_of_nil in Hin.
  - apply elem_of_cons in Hin as [<-|Hin]; [|by apply IH].
    destruct (ensure_table_has n c d) as [t Ht].
    exists t. by apply (foldl_ddl_keeps script).
Qed.

Lemma foldl_ddl_id script d :
  (forall n c, CreateTableIfNotExists n c ∈ script -> is_Some (tables d !! n)) ->
  foldl apply_ddl d script = d.
Proof.
  induction script as [|s script IH]; intros H; simpl; [done|].
  assert (Hs : apply_ddl d s = d).
  { destruct s; simpl; try done. apply ensure_table_id.
    eapply H. apply list_elem_of_here. }
  rewrite Hs. apply IH. intros n c Hin. eapply H. by apply list_elem_of_further.
Qed.

Lemma foldl_ddl_new script d k t :
  tables d !! k = None ->
  tables (foldl apply_ddl d script) !! k = Some t ->
  t_rows t = [] /\ t_seq t = 0.
Proof.
  revert d. induction script as [|s script IH]; intros d Hk Ht; simpl in Ht.
  - congruence.
  - destruct (tables (apply_ddl d s) !! k) as [t1|] eqn:E.
    + pose proof (proj2 (foldl_ddl_keeps script (apply_ddl d s)) k t1 E) as Hk1.
      assert (t = t1) as -> by congruence.
      destruct s; simpl in E; try congruence.
      by rewrite (ensure_table_new _ _ _ _ _ Hk E).
    + by apply (IH (apply_ddl d s)).
Qed.

Lemma set_db_id w : set_db w (db w) = w.
Proof. by destruct w. Qed.

Lemma bind_ok {A B} (m : M A) (k : A -> M B) w a w' :
  m w = (Ok a, w') -> bind m k w = k a w'.
Proof. unfold bind. by intros ->. Qed.

Lemma sql_script_ddl d n script :
  forallb is_ddl script = true ->
  sql_script d n script = (foldl apply_ddl d script, None).
Proof.
  revert d. induction script as [|s script IH]; intros d H; simpl; [done|].
  simpl in H. apply andb_prop in H as [Hs H].
  destruct s; simpl in Hs; try discriminate; unfold sql_step; simpl.
  - by apply IH.
  - unfold ensure_table. destruct (tables d !! name); by apply IH.
Qed.

Lemma run_pragma_quiet w k v :
  fault_free w ->
  run (Pragma k v) [] w = (Ok tt, set_db w (set_pragma k v (db w))).
Proof.
  intros Hq. unfold run, statement, bind.
  rewrite (storage_call_quiet w Hq). reflexivity.
Qed.

Lemma exec_ddl_quiet w script :
  fault_free w ->
  forallb is_ddl script = true ->
  exec script w = (Ok tt, set_db w (foldl apply_ddl (db w) script)).
Proof.
  intros Hq Hs. unfold exec, bind.
  rewrite (storage_call_quiet w Hq), (sql_script_ddl _ _ _ Hs). reflexivity.
Qed.

Lemma create_if_missing_quiet w name cols :
  fault_free w ->
  create_if_missing name cols w =
    (Ok tt, set_db w (ensure_table name cols (db w))).
Proof.
  intros Hq. unfold create_if_missing, get, run, statement, bind, ret.
  rewrite (storage_call_quiet w Hq). unfold sql_step, ensure_table. simpl.
  destruct (tables (db w) !! name) as [t|] eqn:E; simpl.
  - by rewrite !set_db_id.
  - rewrite set_db_id, (storage_call_quiet w Hq). simpl. rewrite E. reflexivity.
Qed.

Lemma ensureSchema_quiet w :
  fault_free w ->
  ddl_only (schema_file w) ->
  ensureSchema w =
    (Ok tt,
     set_console (set_db w (migrated (schema_file w) (db w)))
                 (console w ++ [Log schema_ok_msg])).
Proof.
  intros Hq Hddl. unfold ensureSchema.
  erewrite bind_ok by (apply run_pragma_quiet; exact Hq).
  erewrite bind_ok by (apply run_pragma_quiet; exact Hq).
  unfold read_schema at 1. unfold bind at 1. cbv beta iota.
  set (w2 := set_db (set_db w _) _).
  assert (Hq2 : fault_free w2) by exact Hq.
  assert (Hsf : schema_file w2 = schema_file w) by reflexivity.
  rewrite Hsf.
  assert (Hexec :
    (match schema_file w with
     | Some [] => ret tt
     | Some script => exec script
     | None => ret tt
     end) w2 =
    (Ok tt, set_db w2 (foldl apply_ddl (db w2) (default [] (schema_file w))))).
  { destruct (schema_file w) as [[|s script]|]; simpl.
    - unfold ret. by rewrite set_db_id.
    - apply exec_ddl_quiet; [exact Hq2 | exact Hddl].
    - unfold ret. by rewrite set_db_id. }
  erewrite bind_ok by exact Hexec.
  erewrite bind_ok by (apply create_if_missing_quiet; exact Hq).
  erewrite bind_ok by (apply create_if_missing_quiet; exact Hq).
  erewrite bind_ok by (apply create_if_missing_quiet; exact Hq).
  reflexivity.
Qed.

Lemma pragmas_twice (p : gmap string string) :
  let P := fun q : gmap string string =>
             <["foreign_keys" := "ON"]> (<["journal_mode" := "WAL"]> q) in
  P (P p) = P p.
Proof.
  simpl. apply map_eq. intros k.
  destruct (decide (k = "foreign_keys")) as [->|H1].
  - by rewrite !lookup_insert_eq.
  - rewrite !(lookup_insert_ne _ "foreign_keys") by done.
    destruct (decide (k = "journal_mode")) as [->|H2].
    + by rewrite !lookup_insert_eq.
    + by rewrite !lookup_insert_ne by done.
Qed.

Lemma migrated_keeps_tables sf d k t :
  tables d !! k = Some t -> tables (migrated sf d) !! k = Some t.
Proof.
  intros Hk. unfold migrated.
  apply ensure_table_keeps, ensure_table_keeps, ensure_table_keeps.
  by apply foldl_ddl_keeps.
Qed.

Lemma migrated_has sf d name :
  name ∈ ["users"; "services"; "messages"] ->
  is_Some (tables (migrated sf d) !! name).
Proof.
  intros Hin. unfold migrated.
  set (d1 := foldl apply_ddl _ _).
  set (d2 := ensure_table "services" services_cols d1).
  set (d3 := ensure_table "users" users_cols d2).
  repeat (apply elem_of_cons in Hin as [->|Hin]).
  - destruct (ensure_table_has "users" users_cols d2) as [t Ht].
    exists t. by apply ensure_table_keeps.
  - destruct (ensure_table_has "services" services_cols d1) as [t Ht].
    exists t. by apply ensure_table_keeps, ensure_table_keeps.
  - apply ensure_table_has.
  - by apply elem_of_nil in Hin.
Qed.

Lemma migrated_new sf d k t :
  tables d !! k = None ->
  tables (migrated sf d) !! k = Some t ->
  t_rows t = [] /\ t_seq t = 0.
Proof.
  intros Hk Ht. unfold migrated in Ht.
  set (d0 := set_pragma _ _ (set_pragma _ _ d)) in Ht.
  set (d1 := foldl apply_ddl d0 (default [] sf)) in Ht.
  set (d2 := ensure_table "services" services_cols d1) in Ht.
  set (d3 := ensure_table "users" users_cols d2) in Ht.
  assert (Hstep : forall n c d' t',
            (forall t0, tables d' !! k = Some t0 -> t_rows t0 = [] /\ t_seq t0 = 0) ->
            tables (ensure_table n c d') !! k = Some t' ->
            t_rows t' = [] /\ t_seq t' = 0).
  { intros n c d' t' Hd' Ht'. destruct (tables d' !! k) as [t0|] eqn:E.
    - pose proof (proj2 (ensure_table_keeps n c d') k t0 E) as Hk0.
      assert (t' = t0) as -> by congruence. by apply Hd'.
    - by rewrite (ensure_table_new _ _ _ _ _ E Ht'). }
  eapply Hstep; [|exact Ht]. intros t3 Ht3.
  eapply Hstep; [|exact Ht3]. intros t2 Ht2.
  eapply Hstep; [|exact Ht2]. intros t1 Ht1.
  by apply (foldl_ddl_new (default [] sf) d0 k t1).
Qed.

Lemma migrated_idem sf d : migrated sf (migrated sf d) = migrated sf d.
Proof.
  set (m := migrated sf d).
  assert (Hp : pragmas m =
               <["foreign_keys" := "ON"]> (<["journal_mode" := "WAL"]> (pragmas d))).
  { unfold m, migrated.
    rewrite (proj1 (ensure_table_keeps _ _ _)), (proj1 (ensure_table_keeps _ _ _)),
            (proj1 (ensure_table_keeps _ _ _)), (proj1 (foldl_ddl_keeps _ _)).
    reflexivity. }
  assert (H0 : set_pragma "foreign_keys" "ON" (set_pragma "journal_mode" "WAL" m) = m).
  { unfold set_pragma. simpl. rewrite Hp, (pragmas_twice (pragmas d)), <- Hp.
    by destruct m. }
  assert (H1 : foldl apply_ddl m (default [] sf) = m).
  { apply foldl_ddl_id. intros n c Hin.
    destruct (foldl_ddl_has (default [] sf)
                (set_pragma "foreign_keys" "ON" (set_pragma "journal_mode" "WAL" d))
                n c Hin) as [t Ht].
    exists t. unfold m, migrated.
    by apply ensure_table_keeps, ensure_table_keeps, ensure_table_keeps. }
  unfold migrated at 1. rewrite H0, H1.
  rewrite (ensure_table_id "services"), (ensure_table_id "users"),
          (ensure_table_id "messages"); try done;
    apply migrated_has; set_solver.
Qed.

(** C6.  In a world where no storage call fails and whose schema file, if
    any, holds only comments and [CREATE TABLE IF NOT EXISTS] statements:
    [ensureSchema] succeeds, running it again right away succeeds too and
    leaves the database exactly as the first run left it.  Every table that
    existed before the first run is still there with its columns and rows;
    [users], [services] and [messages] exist afterwards; a table that was
    created is empty. *)
Theorem ensure_schema_idempotent (w : world) :
  fault_free w ->
  ddl_only (schema_file w) ->
  exists w1 w2,
    ensureSchema w = (Ok tt, w1) /\
    ensureSchema w1 = (Ok tt, w2) /\
    db w2 = db w1 /\
    (forall name t,
       tables (db w) !! name = Some t -> tables (db w1) !! name = Some t) /\
    (forall name,
       name ∈ ["users"; "services"; "messages"] ->
       is_Some (tables (db w1) !! name)) /\
    (forall name t,
       tables (db w) !! name = None ->
       tables (db w1) !! name = Some t ->
       t_rows t = [] /\ t_seq t = 0).
Proof.
  intros Hq Hddl.
  rewrite (ensureSchema_quiet w Hq Hddl).
  set (w1 := set_console _ _).
  assert (Hq1 : fault_free w1) by exact Hq.
  assert (Hddl1 : ddl_only (schema_file w1)) by exact Hddl.
  exists w1. eexists. split; [reflexivity|].
  split; [apply (ensureSchema_quiet w1 Hq1 Hddl1)|].
  split; [simpl; apply migrated_idem|].
  split; [|split].
  - intros name t. apply migrated_keeps_tables.
  - intros name. apply migrated_has.
  - intros name t. apply migrated_new.
Qed.

(** ** The contact form *)

Lemma handle_contact_post req w u :
  r_method req = POST ->
  r_path req = "/contact" ->
  resolve_identity w req = Some u ->
  handle req w =
    match topicsStr (r_body req) with
    | None =>
        (Ok (contact_trace, contact_notice u contact_failure),
         logged contact_error_msg
           (TypeError "Cannot convert object to primitive value") w)
    | Some ts =>
        match contact_insert (r_body req) ts w with
        | (Ok _, w1) => (Ok (contact_trace, contact_notice u contact_success), w1)
        | (Throw e, w1) =>
            (Ok (contact_trace, contact_notice u contact_failure),
             logged contact_error_msg e w1)
        | (Exit c, w1) => (Exit c, w1)
        end
    end.
Proof.
  intros Hm Hp Hu.
  assert (Hd : handle req w =
                 run_chain [cb_requireAuth; cb_handler h_contact_post]
                           (load_session w req) w).
  { destruct req as [m p ck b n]. simpl in Hm, Hp. subst. reflexivity. }
  rewrite Hd, run_chain_protected, load_session_user, Hu.
  simpl. unfold contact_post, try_catch, user_local.
  rewrite load_session_body, load_session_user, Hu.
  destruct (topicsStr (r_body req)) as [ts|]; [|reflexivity].
  unfold contact_insert, bind at 1.
  destruct (run _ _ w) as [[[]|e|c] w1]; reflexivity.
Qed.

Lemma contact_insert_row b ts w w1 :
  contact_insert b ts w = (Ok tt, w1) ->
  exists r, message_added w w1 r /\ assoc "topics" r = Some (SText ts).
Proof.
  intros H. apply run_insert_ok in H as (t & Ht & Hcols & Hdb).
  eexists. split.
  - exists t. split; [exact Ht|]. rewrite Hdb. reflexivity.
  - simpl in Hcols. repeat (apply andb_prop in Hcols as [? Hcols]).
    destruct (assoc_new_row t (now w)
                ["name"; "email"; "message"; "topics"]
                (map bind_param [get_field b "name"; get_field b "email";
                                 get_field b "message"; JStr ts])
                "topics") as (c & _ & Hn & Ha).
    { by apply has_col_elem. }
    rewrite Ha. unfold insert_value. rewrite Hn. simpl.
    by rewrite andb_false_r.
Qed.

(** C7.  An authenticated contact submission whose topics text is [ts].
    If the insert fails at the storage layer, the database is as it was (no
    row was added), the contact form is rendered again with the failure
    notice, and the handler has answered normally; if the insert succeeds,
    exactly one row has been appended to [messages], nothing else in the
    database changed, and the form is rendered with the success notice.
    The insert does one or the other. *)
Theorem contact_insert_outcome (req : request) (w : world) (u : identity) (ts : string) :
  r_method req = POST ->
  r_path req = "/contact" ->
  resolve_identity w req = Some u ->
  topicsStr (r_body req) = Some ts ->
  (forall e w1,
     contact_insert (r_body req) ts w = (Throw e, w1) ->
     handle req w =
       (Ok (contact_trace, contact_notice u contact_failure),
        logged contact_error_msg e w1) /\
     db (logged contact_error_msg e w1) = db w) /\
  (forall w1,
     contact_insert (r_body req) ts w = (Ok tt, w1) ->
     handle req w = (Ok (contact_trace, contact_notice u contact_success), w1) /\
     pragmas (db w1) = pragmas (db w) /\
     exists r, message_added w w1 r) /\
  ((exists e w1, contact_insert (r_body req) ts w = (Throw e, w1)) \/
   (exists w1, contact_insert (r_body req) ts w = (Ok tt, w1))).
Proof.
  intros Hm Hp Hu Hts.
  pose proof (handle_contact_post req w u Hm Hp Hu) as Hh. rewrite Hts in Hh.
  split; [|split].
  - intros e w1 Hi. rewrite Hi in Hh. split; [exact Hh|].
    simpl. eapply run_throw_db. exact Hi.
  - intros w1 Hi. rewrite Hi in Hh. split; [exact Hh|].
    destruct (contact_insert_row _ _ _ _ Hi) as (r & Hadd & _).
    split; [|by exists r].
    apply run_insert_ok in Hi as (t & _ & _ & ->). reflexivity.
  - apply run_cases.
Qed.

(** What a contact submission comes to: the failure notice and an
    unchanged database, or the success notice and one row more, holding the
    topics text. *)
Lemma contact_post_cases req w u :
  r_method req = POST ->
  r_path req = "/contact" ->
  resolve_identity w req = Some u ->
  exists resp w',
    handle req w = (Ok (contact_trace, resp), w') /\
    (resp = contact_notice u contact_failure /\ db w' = db w \/
     resp = contact_notice u contact_success /\
     exists r ts,
       topicsStr (r_body req) = Some ts /\
       message_added w w' r /\
       assoc "topics" r = Some (SText ts)).
Proof.
  intros Hm Hp Hu.
  rewrite (handle_contact_post req w u Hm Hp Hu).
  destruct (topicsStr (r_body req)) as [ts|].
  - destruct (run_cases (InsertInto "messages" ["name"; "email"; "message"; "topics"])
                [get_field (r_body req) "name"; get_field (r_body req) "email";
                 get_field (r_body req) "message"; JStr ts] w)
      as [(e & w1 & Hi) | (w1 & Hi)]; unfold contact_insert; rewrite Hi.
    + eexists _, _. split; [reflexivity|]. left. split; [reflexivity|].
      simpl. eapply run_throw_db. exact Hi.
    + eexists _, _. split; [reflexivity|]. right. split; [reflexivity|].
      destruct (contact_insert_row _ _ _ _ Hi) as (r & Hadd & Ht).
      by exists r, ts.
  - eexists _, _. split; [reflexivity|]. left. by split.
Qed.

Lemma sequence_opt_map_Some {A} (l : list A) :
  sequence_opt (map Some l) = Some l.
Proof. induction l as [|a l IH]; simpl; [done | by rewrite IH]. Qed.

Lemma join_strs sep strs :
  join sep (map JStr strs) = Some (join_strings sep strs).
Proof.
  unfold join. rewrite map_map. simpl.
  change (map (fun x => Some x) strs) with (map (@Some string) strs).
  by rewrite sequence_opt_map_Some.
Qed.

(** C5.  An authenticated contact submission with [topics] an array [xs],
    or absent, which the handler takes for the empty array.  The handler
    answers, either with the failure notice and the database unchanged, or
    with the success notice; in that case exactly one row was appended to
    [messages] and its [topics] column holds the text [xs.join(", ")]: for
    an array of strings these are the strings glued with ", " (so
    ["billing","support"] gives "billing, support"), and for no selection it
    is the empty string. *)
Theorem contact_topics_list
    (req : request) (w : world) (u : identity) (xs : list jsval) :
  r_method req = POST ->
  r_path req = "/contact" ->
  resolve_identity w req = Some u ->
  get_field (r_body req) "topics" = JArr xs \/
  (get_field (r_body req) "topics" = JUndefined /\ xs = []) ->
  exists resp w',
    handle req w = (Ok (contact_trace, resp), w') /\
    (resp = contact_notice u contact_failure /\ db w' = db w \/
     resp = contact_notice u contact_success /\
     exists r ts,
       message_added w w' r /\
       assoc "topics" r = Some (SText ts) /\
       join ", " xs = Some ts /\
       (forall strs, xs = map JStr strs -> ts = join_strings ", " strs) /\
       (xs = [JStr "billing"; JStr "support"] -> ts = "billing, support") /\
       (xs = [] -> ts = "")).
Proof.
  intros Hm Hp Hu Hx.
  destruct (contact_post_cases req w u Hm Hp Hu)
    as (resp & w' & Hh & [Hfail | (Hok & r & ts & Hts & Hadd & Ht)]).
  - exists resp, w'. split; [exact Hh|]. by left.
  - exists resp, w'. split; [exact Hh|]. right. split; [exact Hok|].
    assert (Hj : join ", " xs = Some ts).
    { unfold topicsStr in Hts. destruct Hx as [Hx | [Hx ->]]; by rewrite Hx in Hts. }
    exists r, ts. repeat split; try done.
    + intros strs ->. rewrite join_strs in Hj. congruence.
    + intros ->. vm_compute in Hj. congruence.
    + intros ->. vm_compute in Hj. congruence.
Qed.

(** C10.  An authenticated contact submission with [topics] a value [v]
    that is not an array ([undefined] when the field is missing).  The
    handler answers, either with the failure notice and the database
    unchanged, or with the success notice; in that case the [topics] column
    of the one appended row is [String(v)] when [v] is truthy, in particular
    [v] itself when [v] is a string, with no separator involved, and the
    empty string when [v] is missing or falsy. *)
Theorem contact_topics_single
    (req : request) (w : world) (u : identity) (v : jsval) :
  r_method req = POST ->
  r_path req = "/contact" ->
  resolve_identity w req = Some u ->
  get_field (r_body req) "topics" = v ->
  isArray v = false ->
  exists resp w',
    handle req w = (Ok (contact_trace, resp), w') /\
    (resp = contact_notice u contact_failure /\ db w' = db w \/
     resp = contact_notice u contact_success /\
     exists r ts,
       message_added w w' r /\
       assoc "topics" r = Some (SText ts) /\
       (truthy v = true -> String_ v = Some ts) /\
       (truthy v = false -> ts = "") /\
       (forall s, v = JStr s -> ts = s)).
Proof.
  intros Hm Hp Hu Hv Harr.
  destruct (contact_post_cases req w u Hm Hp Hu)
    as (resp & w' & Hh & [Hfail | (Hok & r & ts & Hts & Hadd & Ht)]).
  - exists resp, w'. split; [exact Hh|]. by left.
  - exists resp, w'. split; [exact Hh|]. right. split; [exact Hok|].
    exists r, ts. split; [exact Hadd|]. split; [exact Ht|].
    unfold topicsStr in Hts. rewrite Hv in Hts.
    unfold js_or in Hts.
    destruct v as [| |b|z repr|s|xs|fs]; simpl in *; try discriminate.
    + vm_compute in Hts. repeat split; intros; simpl in *; congruence.
    + vm_compute in Hts. repeat split; intros; simpl in *; congruence.
    + destruct b; simpl in Hts; repeat split; intros; simpl in *; congruence.
    + destruct z; simpl in Hts; repeat split; intros; simpl in *; congruence.
    + destruct (string_eqb s "") eqn:E; simpl in Hts.
      * apply string_eqb_eq in E. subst. repeat split; intros; simpl in *; congruence.
      * repeat split; intros; simpl in *; congruence.
    + repeat split; intros; simpl in *; congruence.
Qed.

(** A submission whose name, email and message are bound to non-NULL
    values is stored, when nothing fails and [messages] has the columns of
    schema.sql. *)
Lemma contact_accepted req w u ts rows seq :
  r_method req = POST ->
  r_path req = "/contact" ->
  resolve_identity w req = Some u ->
  topicsStr (r_body req) = Some ts ->
  fault_free w ->
  tables (db w) !! "messages" = Some (Table messages_cols rows seq) ->
  is_null (bind_param (get_field (r_body req) "name")) = false ->
  is_null (bind_param (get_field (r_body req) "email")) = false ->
  is_null (bind_param (get_field (r_body req) "message")) = false ->
  exists w1,
    handle req w = (Ok (contact_trace, contact_notice u contact_success), w1).
Proof.
  intros Hm Hp Hu Hts Hq Ht Hn He Hmsg.
  rewrite (handle_contact_post req w u Hm Hp Hu), Hts.
  unfold contact_insert.
  erewrite run_insert_quiet; [|exact Hq|exact Ht|simpl; lia|
    simpl; apply insert_message; assumption].
  by eexists.
Qed.

(** ** Logout *)

(** C9 (amended).  POST /logout is registered without [requireAuth]: for
    every request, with or without a valid session, the only callback that
    runs is the logout handler; it removes the request's session id from the
    store and redirects to /login, after which the request's cookie resolves
    to no identity.  Both revisions of the routing table agree. *)
Theorem logout_is_public (req : request) (w : world) :
  r_method req = POST ->
  r_path req = "/logout" ->
  let w' := set_sessions w (delete (sid (load_session w req)) (sessions w)) in
  handle req w = (Ok ([cb_handler h_logout], Redirect "/login"), w') /\
  dispatch routes_r2 req w = handle req w /\
  resolve_identity w' req = None.
Proof.
  destruct req as [m p ck b n]. simpl. intros -> ->.
  split; [reflexivity|]. split; [reflexivity|].
  unfold resolve_identity, load_session. simpl.
  destruct ck as [t|]; [|done].
  destruct (sessions w !! t) as [s|] eqn:Hs; simpl.
  - by rewrite lookup_delete_eq.
  - destruct (decide (n = t)) as [->|Hne].
    + by rewrite lookup_delete_eq.
    + by rewrite lookup_delete_ne, Hs.
Qed.

(** ** Startup *)

(** C3 (amended).  A failure of [ensureSchema], like a failure of
    [seedIfEmpty], is caught by the init block and logged: the block
    completes normally, the process is neither exited nor crashed and goes
    on listening, in the state the failing step left behind (after a schema
    failure the seed is not attempted).  This holds with and without
    [--init], and for the init block of the second revision. *)
Theorem init_failure_is_logged (argv_init : bool) (w : world) (e : exn) (w' : world) :
  ensureSchema w = (Throw e, w') \/
  (exists w1, ensureSchema w = (Ok tt, w1) /\ seedIfEmpty w1 = (Throw e, w')) ->
  init argv_init w = (Ok tt, logged init_error_msg e w') /\
  startup argv_init w = (Listening, logged init_error_msg e w') /\
  init_r2 w = (Ok tt, logged init_error_msg e w').
Proof.
  intros [H | (w1 & H1 & H2)].
  - unfold startup, init, init_r2, try_catch, bind. rewrite H.
    repeat split; reflexivity.
  - unfold startup, init, init_r2, try_catch, bind. rewrite H1.
    destruct argv_init; rewrite H2; repeat split; reflexivity.
Qed.

(** ** Footprints *)

Lemma preserves_ret {A} R (a : A) : frame R -> preserves R (ret a).
Proof. intros F w o w' H. inversion H; subst. apply (fr_refl R F). Qed.

Lemma preserves_throw {A} R (e : exn) : frame R -> preserves R (@throw A e).
Proof. intros F w o w' H. inversion H; subst. apply (fr_refl R F). Qed.

Lemma preserves_bind {A B} R (m : M A) (k : A -> M B) :
  frame R -> preserves R m -> (forall a, preserves R (k a)) ->
  preserves R (bind m k).
Proof.
  intros F Hm Hk w o w'. unfold bind.
  destruct (m w) as [[a|e|c] w1] eqn:E; intros H.
  - eapply (fr_trans R F); [eapply Hm; exact E | eapply Hk; exact H].
  - inversion H; subst. eapply Hm; exact E.
  - inversion H; subst. eapply Hm; exact E.
Qed.

Lemma preserves_try_catch {A} R (m : M A) (h : exn -> M A) :
  frame R -> preserves R m -> (forall e, preserves R (h e)) ->
  preserves R (try_catch m h).
Proof.
  intros F Hm Hh w o w'. unfold try_catch.
  destruct (m w) as [[a|e|c] w1] eqn:E; intros H.
  - inversion H; subst. eapply Hm; exact E.
  - eapply (fr_trans R F); [eapply Hm; exact E | eapply Hh; exact H].
  - inversion H; subst. eapply Hm; exact E.
Qed.

Lemma preserves_console_log R msg : frame R -> preserves R (console_log msg).
Proof. intros F w o w' H. inversion H; subst. apply (fr_console R F). Qed.

Lemma preserves_console_error R msg e :
  frame R -> preserves R (console_error msg e).
Proof. intros F w o w' H. inversion H; subst. apply (fr_console R F). Qed.

Lemma preserves_storage_call R : frame R -> preserves R storage_call.
Proof.
  intros F w o w'. unfold storage_call.
  destruct (faults w) as [|[] fs]; intros H; inversion H; subst;
    first [apply (fr_faults R F) | apply (fr_refl R F)].
Qed.

Lemma sql_step_query d n s ps d' rows :
  is_query s = true -> sql_step d n s ps = Done (d', rows) -> d' = d.
Proof.
  unfold sql_step. case_bool_decide; [discriminate|].
  destruct s; simpl; try discriminate; intros _.
  - congruence.
  - destruct (tables d !! name); congruence.
  - destruct (tables d !! tbl); [congruence | discriminate].
  - destruct (tables d !! tbl); [|discriminate].
    destruct (has_col _ _); [congruence | discriminate].
  - destruct (tables d !! tbl); [congruence | discriminate].
Qed.

(** A reading statement leaves alone whatever a frame relation watches. *)
Lemma preserves_statement_query R s ps :
  frame R -> is_query s = true -> preserves R (statement s ps).
Proof.
  intros F Hq. unfold statement. apply preserves_bind; [exact F | by apply preserves_storage_call |].
  intros _ w o w'.
  destruct (sql_step _ _ _ _) as [[d rows]|e] eqn:E; intros H; inversion H; subst.
  - rewrite (sql_step_query _ _ _ _ _ _ Hq E), set_db_id. apply (fr_refl R F).
  - apply (fr_refl R F).
Qed.

(** Any statement leaves alone what does not depend on the database. *)
Lemma preserves_statement R s ps :
  frame R -> (forall w d, R w (set_db w d)) -> preserves R (statement s ps).
Proof.
  intros F Hdb. unfold statement. apply preserves_bind; [exact F | by apply preserves_storage_call |].
  intros _ w o w'.
  destruct (sql_step _ _ _ _) as [[d rows]|e] eqn:E; intros H; inversion H; subst.
  - apply Hdb.
  - apply (fr_refl R F).
Qed.

Lemma preserves_get_query R s ps :
  frame R -> is_query s = true -> preserves R (get s ps).
Proof.
  intros F Hq. unfold get. apply preserves_bind; [exact F | by apply preserves_statement_query |].
  intros rows. by apply preserves_ret.
Qed.

Lemma preserves_run R s ps :
  frame R -> (forall w d, R w (set_db w d)) -> preserves R (run s ps).
Proof.
  intros F Hdb. unfold run. apply preserves_bind; [exact F | by apply preserves_statement |].
  intros rows. by apply preserves_ret.
Qed.

Lemma frame_same_db : frame same_db.
Proof.
  split; unfold same_db; try done. intros w1 w2 w3 H1 H2. congruence.
Qed.

Lemma frame_same_sessions : frame same_sessions.
Proof.
  split; unfold same_sessions; try done. intros w1 w2 w3 H1 H2. congruence.
Qed.

Lemma frame_sessions_off s : frame (sessions_off s).
Proof.
  split; unfold sessions_off; try done.
  intros w1 w2 w3 H1 H2 t Ht. rewrite (H2 t Ht). by apply H1.
Qed.

Lemma frame_keeps_users : frame keeps_users.
Proof.
  split; unfold keeps_users; try done. intros w1 w2 w3 H1 H2 H. by apply H2, H1.
Qed.

(** What a handler leaves alone: anything a frame relation watches, as long
    as the relation tolerates the one write the handler may make (a row into
    the database for the contact form, the session of the request for login
    and logout). *)
Lemma run_handler_preserves R h c :
  frame R ->
  (h = h_contact_post -> forall w d, R w (set_db w d)) ->
  (h = h_login_post -> forall w ident,
     R w (set_sessions w (<[sid c := Sess (Some ident)]> (sessions w)))) ->
  (h = h_logout -> forall w, R w (set_sessions w (delete (sid c) (sessions w)))) ->
  preserves R (run_handler h c).
Proof.
  intros F Hc Hl Ho.
  assert (Hcatch : forall msg (r : response) e,
            preserves R (console_error msg e ;; ret r)).
  { intros msg r e. apply preserves_bind; [exact F | by apply preserves_console_error |].
    intros _. by apply preserves_ret. }
  destruct h; simpl.
  - by apply preserves_ret.
  - unfold login_get. destruct (s_user (session c)); by apply preserves_ret.
  - unfold login_post. apply preserves_try_catch; [exact F | | intros; apply Hcatch].
    apply preserves_bind; [exact F | by apply preserves_get_query |].
    intros [u|]; [|by apply preserves_ret].
    destruct (bcrypt_compare _ _) as [[]|].
    + apply preserves_bind; [exact F | | intros; by apply preserves_ret].
      intros w o w' H. inversion H; subst. by apply Hl.
    + by apply preserves_ret.
    + by apply preserves_throw.
  - unfold logout_post. apply preserves_bind; [exact F | | intros; by apply preserves_ret].
    intros w o w' H. inversion H; subst. by apply Ho.
  - unfold dashboard_get. apply preserves_try_catch; [exact F | | intros; apply Hcatch].
    apply preserves_bind; [exact F | by apply preserves_statement_query |].
    intros; by apply preserves_ret.
  - by apply preserves_ret.
  - by apply preserves_ret.
  - unfold contact_post. apply preserves_try_catch; [exact F | | intros; apply Hcatch].
    destruct (topicsStr (body c)); [|by apply preserves_throw].
    apply preserves_bind; [exact F | apply preserves_run; [exact F | by apply Hc] |].
    intros; by apply preserves_ret.
  - unfold hosting_get. apply preserves_try_catch; [exact F | | intros; apply Hcatch].
    apply preserves_bind; [exact F | by apply preserves_get_query |].
    intros; by apply preserves_ret.
  - by apply preserves_ret.
Qed.

Lemma run_chain_preserves R chain c :
  frame R ->
  (forall h, cb_handler h ∈ chain -> preserves R (run_handler h c)) ->
  preserves R (run_chain chain c).
Proof.
  intros F. induction chain as [|cb chain IH]; intros Hh; simpl.
  - by apply preserves_ret.
  - destruct cb as [|h].
    + destruct (requireAuth c); [|by apply preserves_ret].
      apply preserves_bind; [exact F | | intros; by apply preserves_ret].
      apply IH. intros h Hin. apply Hh. by apply list_elem_of_further.
    + apply preserves_bind; [exact F | | intros; by apply preserves_ret].
      apply Hh. apply list_elem_of_here.
Qed.

(** The route a request is dispatched to is registered for the request's
    method, its pattern accepts the request's pathname, and its handler is
    the one of that endpoint. *)
Lemma find_route_handler req rt h :
  find_route routes req = Some rt ->
  cb_handler h ∈ rt_chain rt ->
  routed req h.
Proof.
  unfold find_route. intros Hf Hin.
  apply find_some in Hf as [Hrt Hm].
  unfold matches in Hm. apply andb_prop in Hm as [Hm Hp].
  apply bool_decide_eq_true in Hm.
  unfold routes in Hrt. simpl in Hrt.
  repeat (destruct Hrt as [<-|Hrt];
          [simpl in Hin;
           repeat (apply elem_of_cons in Hin as [Hin|Hin];
                   [inversion Hin; subst; (split; [exact Hm | exact Hp])|]);
           by apply elem_of_nil in Hin|]).
  destruct Hrt.
Qed.

Lemma handle_preserves R req w o w' :
  frame R ->
  (forall h, routed req h ->
     preserves R (run_handler h (load_session w req))) ->
  handle req w = (o, w') ->
  R w w'.
Proof.
  intros F Hh. unfold handle, dispatch.
  destruct (find_route routes req) as [rt|] eqn:Hf.
  - apply run_chain_preserves; [exact F|].
    intros h Hin. apply Hh. by apply (find_route_handler req rt).
  - intros H. inversion H; subst. apply (fr_refl R F).
Qed.

(** X1.  Whatever the request and the state of the world, the router
    answers: a response comes back, no exception escapes a handler and the
    process is not exited.  Both revisions of the routing table agree. *)
Theorem handle_always_answers (req : request) (w : world) :
  exists invoked resp w',
    handle req w = (Ok (invoked, resp), w') /\
    dispatch routes_r2 req w = handle req w.
Proof.
  assert (Hchain : forall chain c w0,
            exists invoked resp w', run_chain chain c w0 = (Ok (invoked, resp), w')).
  { induction chain as [|cb chain IH]; intros c w0; simpl.
    - by eexists _, _, _.
    - destruct cb as [|h].
      + destruct (requireAuth c); [|by eexists _, _, _].
        unfold bind, ret. destruct (IH c w0) as (i & r & w' & ->).
        by eexists _, _, _.
      + unfold bind, ret.
        destruct (run_handler_always_ok h c w0) as (r & w' & ->).
        by eexists _, _, _. }
  rewrite routes_r2_eq. unfold handle, dispatch.
  destruct (find_route routes req) as [rt|].
  - destruct (Hchain (rt_chain rt) (load_session w req) w) as (i & r & w' & H).
    exists i, r, w'. by split.
  - by eexists _, _, _.
Qed.

(** X2.  Only the contact form writes to the database: a request that
    the router does not hand to the POST /contact handler (its method is not
    POST, or its pathname is not /contact in some letter case, with or
    without a trailing slash) leaves the database exactly as it was, be it
    routed or not, authenticated or not, and whatever the storage layer
    does. *)
Theorem only_contact_writes (req : request) (w : world) o (w' : world) :
  ~ (r_method req = POST /\ path_matches "/contact" (r_path req) = true) ->
  handle req w = (o, w') ->
  db w' = db w.
Proof.
  intros Hne Hh.
  apply (handle_preserves same_db req w o w' frame_same_db); [|exact Hh].
  intros h [Hrm Hrp]. apply run_handler_preserves; try done.
  - apply frame_same_db.
  - intros ->. simpl in Hrm, Hrp. exfalso. apply Hne. by split.
Qed.

(** X3.  A request touches no session but its own: the session store after
    the request agrees with the store before at every id other than the
    request's session id; and unless the router hands the request to the
    POST /login or the POST /logout handler (method POST and pathname /login
    or /logout in some letter case, with or without a trailing slash) the
    store is not changed at all. *)
Theorem session_store_footprint (req : request) (w : world) o (w' : world) :
  handle req w = (o, w') ->
  (forall t, t <> sid (load_session w req) ->
     sessions w' !! t = sessions w !! t) /\
  (~ (r_method req = POST /\ path_matches "/login" (r_path req) = true) ->
   ~ (r_method req = POST /\ path_matches "/logout" (r_path req) = true) ->
   sessions w' = sessions w).
Proof.
  intros Hh. split.
  - apply (handle_preserves (sessions_off (sid (load_session w req)))
             req w o w' (frame_sessions_off _)); [|exact Hh].
    intros h Hr. apply run_handler_preserves; try done.
    + apply frame_sessions_off.
    + intros _ w0 ident t Ht. simpl. by rewrite lookup_insert_ne.
    + intros _ w0 t Ht. simpl. by rewrite lookup_delete_ne.
  - intros Hl Ho.
    apply (handle_preserves same_sessions req w o w' frame_same_sessions);
      [|exact Hh].
    intros h [Hrm Hrp]. apply run_handler_preserves; try done.
    + apply frame_same_sessions.
    + intros ->. simpl in Hrm, Hrp. exfalso. apply Hl. by split.
    + intros ->. simpl in Hrm, Hrp. exfalso. apply Ho. by split.
Qed.

(** X4.  No request leaves a session without a user in the store: if every
    stored session carries a user before a request, every stored session
    carries one after it. *)
Theorem stored_sessions_have_users (req : request) (w : world) o (w' : world) :
  sessions_have_users w ->
  handle req w = (o, w') ->
  sessions_have_users w'.
Proof.
  intros Hinv Hh.
  apply (handle_preserves keeps_users req w o w' frame_keeps_users); [|exact Hh|exact Hinv].
  intros h Hr. apply run_handler_preserves.
  - apply frame_keeps_users.
  - intros _ w0 d H. exact H.
  - intros _ w0 ident H t s. simpl. intros Hs.
    destruct (decide (sid (load_session w req) = t)) as [Heq|Hne].
    + rewrite Heq, lookup_insert_eq in Hs. inversion Hs; subst. by eexists.
    + rewrite lookup_insert_ne in Hs by done. by apply (H t).
  - intros _ w0 H t s. simpl. intros Hs.
    destruct (decide (sid (load_session w req) = t)) as [Heq|Hne].
    + by rewrite Heq, lookup_delete_eq in Hs.
    + rewrite lookup_delete_ne in Hs by done. by apply (H t).
Qed.

(** ** Storage calls per request *)

Lemma calls_mono {A} n n' (m : M A) : (n <= n')%nat -> calls n m -> calls n' m.
Proof.
  intros Hle Hm w o w' H. destruct (Hm w o w' H) as (k & Hk & Hf).
  exists k. split; [lia | exact Hf].
Qed.

Lemma calls_pure {A} (m : M A) :
  (forall w o w', m w = (o, w') -> faults w' = faults w) -> calls 0 m.
Proof. intros Hm w o w' H. exists O. split; [lia|]. by rewrite (Hm w o w' H). Qed.

Lemma calls_bind {A B} n n' (m : M A) (k : A -> M B) :
  calls n m -> (forall a, calls n' (k a)) -> calls (n + n') (bind m k).
Proof.
  intros Hm Hk w o w'. unfold bind.
  destruct (m w) as [[a|e|c] w1] eqn:E; intros H.
  - destruct (Hm w _ _ E) as (k1 & Hk1 & Hf1).
    destruct (Hk a w1 _ _ H) as (k2 & Hk2 & Hf2).
    exists (k1 + k2)%nat. split; [lia|]. by rewrite Hf2, Hf1, drop_drop.
  - inversion H; subst. destruct (Hm w _ _ E) as (k1 & Hk1 & Hf1).
    exists k1. split; [lia | exact Hf1].
  - inversion H; subst. destruct (Hm w _ _ E) as (k1 & Hk1 & Hf1).
    exists k1. split; [lia | exact Hf1].
Qed.

Lemma calls_try_catch {A} n (m : M A) (h : exn -> M A) :
  calls n m -> (forall e, calls 0 (h e)) -> calls n (try_catch m h).
Proof.
  intros Hm Hh w o w'. unfold try_catch.
  destruct (m w) as [[a|e|c] w1] eqn:E; intros H.
  - inversion H; subst. exact (Hm w _ _ E).
  - destruct (Hm w _ _ E) as (k1 & Hk1 & Hf1).
    destruct (Hh e w1 _ _ H) as (k2 & Hk2 & Hf2).
    exists k1. split; [exact Hk1|].
    assert (k2 = O) as -> by lia. by rewrite Hf2.
  - inversion H; subst. exact (Hm w _ _ E).
Qed.

Lemma calls_statement s ps : calls 1 (statement s ps).
Proof.
  intros w o w'. unfold statement, bind, storage_call.
  destruct w as [d sf ss fs n cs]. simpl.
  destruct fs as [|[] fs]; simpl;
    try (destruct (sql_step _ _ _ _) as [[d' rows]|e]);
    intros H; inversion H; subst; simpl.
  - exists O. by split; [lia|].
  - exists O. by split; [lia|].
  - exists 1%nat. by split; [lia|].
  - exists 1%nat. by split; [lia|].
  - exists 1%nat. by split; [lia|].
Qed.

Lemma calls_catch_handler msg (r : response) e :
  calls 0 (console_error msg e ;; ret r).
Proof.
  apply calls_pure. intros w o w' H. unfold bind, console_error, ret in H.
  by inversion H.
Qed.

Lemma calls_ret {A} (a : A) : calls 0 (ret a).
Proof. apply calls_pure. intros w o w' H. by inversion H. Qed.

Lemma run_handler_calls h c : calls 1 (run_handler h c).
Proof.
  assert (Hret : forall r : response, calls 1 (ret r)).
  { intros r. apply (calls_mono 0); [lia | apply calls_ret]. }
  destruct h; simpl; try apply Hret.
  - unfold login_get. destruct (s_user (session c)); apply Hret.
  - unfold login_post. apply calls_try_catch; [|intros; apply calls_catch_handler].
    apply (calls_bind 1 0).
    + unfold get. apply (calls_bind 1 0); [apply calls_statement|].
      intros; apply calls_ret.
    + intros [u|]; [|apply calls_ret].
      destruct (bcrypt_compare _ _) as [[]|]; apply calls_pure;
        intros w o w' H; unfold bind, set_session_user, ret, throw in H;
        by inversion H.
  - unfold logout_post. apply (calls_mono 0); [lia|]. apply calls_pure.
    intros w o w' H. unfold bind, session_destroy, ret in H. by inversion H.
  - unfold dashboard_get. apply calls_try_catch; [|intros; apply calls_catch_handler].
    apply (calls_bind 1 0); [apply calls_statement|]. intros; apply calls_ret.
  - unfold contact_post. apply calls_try_catch; [|intros; apply calls_catch_handler].
    destruct (topicsStr (body c)).
    + apply (calls_bind 1 0); [|intros; apply calls_ret].
      unfold run. apply (calls_bind 1 0); [apply calls_statement|].
      intros; apply calls_ret.
    + apply (calls_mono 0); [lia|]. apply calls_pure.
      intros w o w' H. by inversion H.
  - unfold hosting_get. apply calls_try_catch; [|intros; apply calls_catch_handler].
    apply (calls_bind 1 0).
    + unfold get. apply (calls_bind 1 0); [apply calls_statement|].
      intros; apply calls_ret.
    + intros; apply calls_ret.
Qed.

Lemma run_chain_calls chain c : calls 1 (run_chain chain c).
Proof.
  induction chain as [|cb chain IH]; simpl.
  - apply (calls_mono 0); [lia | apply calls_ret].
  - destruct cb as [|h].
    + destruct (requireAuth c); [|apply (calls_mono 0); [lia | apply calls_ret]].
      apply (calls_bind 1 0); [exact IH | intros; apply calls_ret].
    + apply (calls_bind 1 0); [apply run_handler_calls | intros; apply calls_ret].
Qed.

(** X5.  A request makes at most one storage call, and never repeats a
    failed one: of the environment's schedule of coming storage calls it
    consumes nothing or exactly the first entry. *)
Theorem at_most_one_storage_call (req : request) (w : world) o (w' : world) :
  handle req w = (o, w') ->
  faults w' = faults w \/ faults w' = tail (faults w).
Proof.
  unfold handle, dispatch. destruct (find_route routes req) as [rt|].
  - intros H. destruct (run_chain_calls _ _ _ _ _ H) as (k & Hk & Hf).
    destruct k as [|[|k]]; [left | right | lia].
    + exact Hf.
    + rewrite Hf. by destruct (faults w).
  - intros H. inversion H; subst. by left.
Qed.

(** ** Logging in and out *)

Lemma handle_login_post req w :
  r_method req = POST -> r_path req = "/login" ->
  handle req w =
    match login_post (load_session w req) w with
    | (Ok resp, w') => (Ok ([cb_handler h_login_post], resp), w')
    | (Throw e, w') => (Throw e, w')
    | (Exit c, w') => (Exit c, w')
    end.
Proof.
  destruct req as [m p ck b n]. simpl. intros -> ->.
  unfold handle, dispatch. simpl. unfold bind, ret.
  by destruct (login_post _ w) as [[resp|e|c] w'].
Qed.

Lemma handle_login_success req w t u :
  r_method req = POST -> r_path req = "/login" ->
  no_fault_next w ->
  tables (db w) !! "users" = Some t ->
  has_col t "username" = true ->
  head (select_where t "username"
          (bind_param (get_field (r_body req) "username"))) = Some u ->
  bcrypt_compare (get_field (r_body req) "password")
                 (assoc "password_hash" u) = Some true ->
  handle req w =
    (Ok ([cb_handler h_login_post], Redirect "/dashboard"),
     set_sessions (after_call w)
       (<[sid (load_session w req) := Sess (Some (identity_of u))]> (sessions w))).
Proof.
  intros Hm Hp Hf Ht Hc Hu Hcmp.
  rewrite (handle_login_post req w Hm Hp).
  unfold login_post, try_catch, bind at 1.
  rewrite (get_select_where w _ _ _ t Hf Ht Hc), load_session_body, Hu, Hcmp.
  reflexivity.
Qed.

(** X6.  A login whose username matches row [u] of [users] and whose
    password bcrypt verifies against [u.password_hash] is answered with a
    redirect to /dashboard; the store then holds, under the request's
    session id, a session whose user is the id, name and username of [u];
    any later request sending that id as its cookie resolves to this
    identity; the database is not written. *)
Theorem login_success (req : request) (w : world) (t : table) (u : row) :
  r_method req = POST -> r_path req = "/login" ->
  no_fault_next w ->
  tables (db w) !! "users" = Some t ->
  has_col t "username" = true ->
  head (select_where t "username"
          (bind_param (get_field (r_body req) "username"))) = Some u ->
  bcrypt_compare (get_field (r_body req) "password")
                 (assoc "password_hash" u) = Some true ->
  let s := sid (load_session w req) in
  let w' := set_sessions (after_call w)
              (<[s := Sess (Some (identity_of u))]> (sessions w)) in
  handle req w = (Ok ([cb_handler h_login_post], Redirect "/dashboard"), w') /\
  (forall req', r_cookie req' = Some s ->
     resolve_identity w' req' = Some (identity_of u)) /\
  db w' = db w.
Proof.
  intros Hm Hp Hf Ht Hc Hu Hcmp. simpl.
  split; [|split].
  - by apply (handle_login_success req w t u).
  - intros req' Hck. unfold resolve_identity. rewrite Hck. simpl.
    by rewrite lookup_insert_eq.
  - reflexivity.
Qed.

(** X7.  A login during which the user lookup throws (the storage call
    fails, [users] is missing), or during which bcrypt.compare throws, is
    answered with the login form and the internal-error message; the error
    is written to the console; the session store and the database are as
    before. *)
Theorem login_internal_error (req : request) (w : world) (e : exn) (w1 : world) :
  r_method req = POST -> r_path req = "/login" ->
  get (SelectWhereEq "users" "username")
      [get_field (r_body req) "username"] w = (Throw e, w1) \/
  (exists u,
     get (SelectWhereEq "users" "username")
         [get_field (r_body req) "username"] w = (Ok (Some u), w1) /\
     bcrypt_compare (get_field (r_body req) "password")
                    (assoc "password_hash" u) = None /\
     e = LibError "bcrypt.compare") ->
  handle req w =
    (Ok ([cb_handler h_login_post], internal_error), logged login_error_msg e w1) /\
  sessions (logged login_error_msg e w1) = sessions w /\
  db (logged login_error_msg e w1) = db w.
Proof.
  intros Hm Hp Hcase.
  assert (Hsame : sessions w1 = sessions w /\ db w1 = db w).
  { assert (Hg : exists o, get (SelectWhereEq "users" "username")
                     [get_field (r_body req) "username"] w = (o, w1)).
    { destruct Hcase as [H | (u & H & _)]; eauto. }
    destruct Hg as [o Hg]. split.
    - apply (preserves_get_query same_sessions (SelectWhereEq "users" "username") _
               frame_same_sessions eq_refl _ _ _ Hg).
    - apply (preserves_get_query same_db (SelectWhereEq "users" "username") _
               frame_same_db eq_refl _ _ _ Hg). }
  split; [|exact Hsame].
  rewrite (handle_login_post req w Hm Hp).
  unfold login_post, try_catch, bind at 1. rewrite load_session_body.
  destruct Hcase as [H | (u & H & Hcmp & ->)]; rewrite H.
  - reflexivity.
  - rewrite Hcmp. reflexivity.
Qed.

(** X8.  Logging out undoes logging in.  After a successful login, a
    POST /logout that sends the login's session id as its cookie is
    answered with a redirect to /login, the store is the store from before
    the login without that id, the cookie resolves to no identity any more,
    and a request to a protected page with that cookie is sent back to
    /login. *)
Theorem login_then_logout
    (req out page : request) (w : world) (t : table) (u : row) :
  r_method req = POST -> r_path req = "/login" ->
  no_fault_next w ->
  tables (db w) !! "users" = Some t ->
  has_col t "username" = true ->
  head (select_where t "username"
          (bind_param (get_field (r_body req) "username"))) = Some u ->
  bcrypt_compare (get_field (r_body req) "password")
                 (assoc "password_hash" u) = Some true ->
  r_method out = POST -> r_path out = "/logout" ->
  r_cookie out = Some (sid (load_session w req)) ->
  (r_method page, r_path page) ∈ protected_endpoints ->
  r_cookie page = r_cookie out ->
  exists w1 w2,
    handle req w = (Ok ([cb_handler h_login_post], Redirect "/dashboard"), w1) /\
    handle out w1 = (Ok ([cb_handler h_logout], Redirect "/login"), w2) /\
    sessions w2 = delete (sid (load_session w req)) (sessions w) /\
    resolve_identity w2 out = None /\
    handle page w2 = (Ok ([cb_requireAuth], Redirect "/login"), w2).
Proof.
  intros Hm Hp Hf Ht Hc Hu Hcmp Hom Hop Hock Hpage Hpck.
  pose proof (handle_login_success req w t u Hm Hp Hf Ht Hc Hu Hcmp) as Hlogin.
  set (s := sid (load_session w req)) in *.
  eexists _, _. split; [exact Hlogin|].
  assert (Hsid : forall w0, sessions w0 !! s = Some (Sess (Some (identity_of u))) ->
                 sid (load_session w0 out) = s).
  { intros w0 H0. unfold load_session. by rewrite Hock, H0. }
  assert (Hout : forall w0,
            handle out w0 =
              (Ok ([cb_handler h_logout], Redirect "/login"),
               set_sessions w0 (delete (sid (load_session w0 out)) (sessions w0)))).
  { intros w0. destruct out as [m p ck b n]. simpl in Hom, Hop. subst m p.
    reflexivity. }
  split; [apply Hout|].
  rewrite Hsid by (simpl; apply lookup_insert_eq).
  simpl. rewrite delete_insert_eq.
  split; [reflexivity|].
  assert (Hnone : forall r0, r_cookie r0 = Some s ->
            resolve_identity
              (set_sessions (after_call w) (delete s (sessions w))) r0 = None).
  { intros r0 Hr0. unfold resolve_identity. rewrite Hr0. simpl.
    by rewrite lookup_delete_eq. }
  split; [by apply Hnone|].
  destruct (find_route_protected page Hpage) as [h Hh].
  unfold handle, dispatch. rewrite Hh. unfold protected. cbn [rt_chain].
  rewrite run_chain_protected, load_session_user, Hnone; [reflexivity|].
  by rewrite Hpck.
Qed.

(** X9.  No redirect loop.  A visitor without identity is sent from / to
    /login, where the form is rendered; a visitor with an identity is sent
    from /login to /dashboard, where the gate lets the request through to
    the dashboard handler.  Neither GET / nor GET /login changes the
    world. *)
Theorem no_redirect_loop (root login dash : request) (w : world) :
  r_method root = GET -> r_path root = "/" ->
  r_method login = GET -> r_path login = "/login" ->
  r_method dash = GET -> r_path dash = "/dashboard" ->
  r_cookie dash = r_cookie login ->
  handle root w = (Ok ([cb_handler h_root], Redirect "/login"), w) /\
  match resolve_identity w login with
  | None =>
      handle login w =
        (Ok ([cb_handler h_login_get], Render "login" [("error", VNull)]), w)
  | Some u =>
      handle login w = (Ok ([cb_handler h_login_get], Redirect "/dashboard"), w) /\
      exists resp w',
        handle dash w = (Ok ([cb_requireAuth; cb_handler h_dashboard], resp), w') /\
        resp <> Redirect "/login"
  end.
Proof.
  intros Hrm Hrp Hlm Hlp Hdm Hdp Hck.
  split.
  { destruct root as [m p ck b n]. simpl in Hrm, Hrp. subst. reflexivity. }
  assert (Hl : handle login w =
                 match s_user (session (load_session w login)) with
                 | Some _ => (Ok ([cb_handler h_login_get], Redirect "/dashboard"), w)
                 | None => (Ok ([cb_handler h_login_get],
                                Render "login" [("error", VNull)]), w)
                 end).
  { destruct login as [m p ck b n]. simpl in Hlm, Hlp. subst.
    unfold handle, dispatch. simpl. unfold login_get, bind.
    by destruct (s_user _). }
  rewrite load_session_user in Hl.
  destruct (resolve_identity w login) as [u|] eqn:Hu; [|exact Hl].
  split; [exact Hl|].
  assert (Hud : resolve_identity w dash = Some u).
  { unfold resolve_identity in *. by rewrite Hck. }
  assert (Hd : handle dash w =
                 run_chain [cb_requireAuth; cb_handler h_dashboard]
                           (load_session w dash) w).
  { destruct dash as [m p ck b n]. simpl in Hdm, Hdp. subst. reflexivity. }
  rewrite Hd, run_chain_protected, load_session_user, Hud.
  simpl. unfold dashboard_get, try_catch, bind, all.
  destruct (statement _ _ w) as [[rows|e|c] w1] eqn:E.
  - eexists _, _. split; [reflexivity | discriminate].
  - eexists _, _. split; [reflexivity | discriminate].
  - exfalso. by apply (never_exits_statement _ _ _ _ _ E).
Qed.

(** ** Pages *)

Lemma handle_protected req w h u :
  find_route routes req = Some (protected (r_method req) (r_path req) h) ->
  resolve_identity w req = Some u ->
  handle req w =
    match run_handler h (load_session w req) w with
    | (Ok resp, w') => (Ok ([cb_requireAuth; cb_handler h], resp), w')
    | (Throw e, w') => (Throw e, w')
    | (Exit code, w') => (Exit code, w')
    end.
Proof.
  intros Hf Hu. unfold handle, dispatch. rewrite Hf. unfold protected.
  cbn [rt_chain]. by rewrite run_chain_protected, load_session_user, Hu.
Qed.

Lemma all_services_ok w t :
  no_fault_next w ->
  tables (db w) !! "services" = Some t ->
  all (SelectAll "services") [] w = (Ok (t_rows t), after_call w).
Proof.
  intros Hf Ht. unfold all, statement, bind.
  rewrite (storage_call_ok w Hf). unfold sql_step. simpl. by rewrite Ht.
Qed.

(** X10.  The dashboard of an authenticated user, when the read goes
    through: the template [dashboard] is rendered with the session's user
    and with every row of [services], in table order; nothing but the
    consumed storage call changes in the world. *)
Theorem dashboard_lists_services (req : request) (w : world) (u : identity) (t : table) :
  r_method req = GET -> r_path req = "/dashboard" ->
  resolve_identity w req = Some u ->
  no_fault_next w ->
  tables (db w) !! "services" = Some t ->
  handle req w =
    (Ok ([cb_requireAuth; cb_handler h_dashboard],
         Render "dashboard"
           [("user", VUser (Some u)); ("services", VRows (t_rows t))]),
     after_call w).
Proof.
  intros Hm Hp Hu Hf Ht.
  rewrite (handle_protected req w h_dashboard u); [|
    destruct req as [m p ck b n]; simpl in Hm, Hp; subst; reflexivity | exact Hu].
  simpl. unfold dashboard_get, try_catch, bind, user_local.
  rewrite (all_services_ok w t Hf Ht), load_session_user, Hu. reflexivity.
Qed.

(** X11.  When the read of [services] fails, because the storage call
    fails or because the table does not exist, the dashboard and the hosting
    page answer an authenticated request with status 500 and their fixed
    text; the error is written to the console, and neither the database nor
    the session store changes. *)
Theorem read_failure_gives_500 (req : request) (w : world) (u : identity) :
  r_method req = GET ->
  r_path req = "/dashboard" \/ r_path req = "/hosting" ->
  resolve_identity w req = Some u ->
  head (faults w) = Some true \/
  (no_fault_next w /\ tables (db w) !! "services" = None) ->
  exists w',
    handle req w =
      (Ok ([cb_requireAuth; cb_handler (fst (reading_page (r_path req)))],
           Send 500 (snd (reading_page (r_path req)))), w') /\
    db w' = db w /\ sessions w' = sessions w /\
    exists e, console w' =
                (console w ++ [LogError (snd (reading_page (r_path req)) +:+ ":") e])%list.
Proof.
  intros Hm Hp Hu Hfail.
  assert (Hst : forall s ps,
            (s = SelectAll "services" \/ s = SelectWhereEq "services" "title") ->
            exists e, statement s ps w = (Throw e, after_call w)).
  { intros s ps Hs. unfold statement, bind.
    destruct Hfail as [Hf | [Hf Hnone]].
    - unfold storage_call, after_call. destruct w as [d sf ss fs n cs]. simpl in *.
      destruct fs as [|[] fs]; simpl in Hf; try discriminate. simpl. by eexists.
    - rewrite (storage_call_ok w Hf). unfold sql_step.
      destruct Hs as [-> | ->]; simpl.
      + case_bool_decide; [by eexists|]. rewrite Hnone. by eexists.
      + case_bool_decide; [by eexists|]. rewrite Hnone. by eexists. }
  destruct Hp as [Hp | Hp].
  - rewrite (handle_protected req w h_dashboard u); [|
      destruct req as [m p ck b n]; simpl in Hm, Hp; subst; reflexivity | exact Hu].
    rewrite Hp. simpl. unfold dashboard_get, try_catch, bind at 1, all.
    destruct (Hst (SelectAll "services") [] (or_introl eq_refl)) as [e ->].
    eexists. split; [reflexivity|]. simpl. repeat split. by exists e.
  - rewrite (handle_protected req w h_hosting u); [|
      destruct req as [m p ck b n]; simpl in Hm, Hp; subst; reflexivity | exact Hu].
    rewrite Hp. simpl. unfold hosting_get, try_catch, bind at 1, get, bind at 1.
    destruct (Hst (SelectWhereEq "services" "title") [JStr hosting_title]
                (or_intror eq_refl)) as [e ->].
    eexists. split; [reflexivity|]. simpl. repeat split. by exists e.
Qed.

(** X12.  The pages that read nothing (/about, GET /contact and the nine
    service pages) render, for an authenticated user, their own template
    ([about], [contact] with [ok] null, [services/<page>]) with the session's
    user, make no storage call and leave the world untouched: they are
    served the same whatever state the storage layer is in. *)
Theorem static_pages_render
    (req : request) (w : world) (u : identity)
    (view : string) (extra : list (string * local)) :
  r_method req = GET ->
  (r_path req, view, extra) ∈ static_pages ->
  resolve_identity w req = Some u ->
  exists h,
    handle req w =
      (Ok ([cb_requireAuth; cb_handler h],
           Render view (("user", VUser (Some u)) :: extra)), w) /\
    dispatch routes_r2 req w = handle req w.
Proof.
  intros Hm Hin Hu. rewrite routes_r2_eq.
  assert (Hgen : forall h,
            find_route routes req = Some (protected (r_method req) (r_path req) h) ->
            (forall c w0, run_handler h c w0 =
               (Ok (Render view (user_local c :: extra)), w0)) ->
            handle req w =
              (Ok ([cb_requireAuth; cb_handler h],
                   Render view (("user", VUser (Some u)) :: extra)), w)).
  { intros h Hf Hh. rewrite (handle_protected req w h u Hf Hu), Hh.
    unfold user_local. by rewrite load_session_user, Hu. }
  destruct req as [m p ck b n]. simpl in Hm, Hin |- *. subst m.
  unfold static_pages in Hin. simpl in Hin.
  repeat (apply elem_of_cons in Hin as [Hin|Hin];
          [inversion Hin; subst;
           eexists; split; [apply Hgen; [reflexivity | intros; reflexivity] | reflexivity]|]).
  by apply elem_of_nil in Hin.
Qed.

(** ** Startup, once more *)

Lemma never_exits_create_if_missing name cols :
  never_exits (create_if_missing name cols).
Proof.
  unfold create_if_missing. apply never_exits_bind; [apply never_exits_get|].
  intros [r|]; [apply never_exits_ret | apply never_exits_run].
Qed.

Lemma never_exits_console_log msg : never_exits (console_log msg).
Proof. apply always_ok_never_exits, always_ok_console_log. Qed.

Lemma never_exits_ensureSchema : never_exits ensureSchema.
Proof.
  unfold ensureSchema.
  apply never_exits_bind; [apply never_exits_run|]. intros _.
  apply never_exits_bind; [apply never_exits_run|]. intros _.
  apply never_exits_bind.
  { intros w c w'. unfold read_schema. congruence. }
  intros schema. apply never_exits_bind.
  { destruct schema as [[|s script]|];
      [apply never_exits_ret | apply never_exits_exec | apply never_exits_ret]. }
  intros _.
  apply never_exits_bind; [apply never_exits_create_if_missing|]. intros _.
  apply never_exits_bind; [apply never_exits_create_if_missing|]. intros _.
  apply never_exits_bind; [apply never_exits_create_if_missing|]. intros _.
  apply never_exits_console_log.
Qed.

Lemma never_exits_insert_services l : never_exits (insert_services l).
Proof.
  induction l as [|s l IH]; simpl; [apply never_exits_ret|].
  apply never_exits_bind; [apply never_exits_run | intros _; exact IH].
Qed.

Lemma never_exits_seedIfEmpty : never_exits seedIfEmpty.
Proof.
  unfold seedIfEmpty. apply never_exits_bind; [apply never_exits_get|].
  intros [r|]; [|apply never_exits_throw].
  case_bool_decide; [|apply never_exits_ret].
  apply never_exits_bind; [apply never_exits_run|]. intros _.
  apply never_exits_bind; [apply never_exits_insert_services|]. intros _.
  apply never_exits_console_log.
Qed.

(** X13.  What can become of the process at startup.  It never crashes on
    an exception of the init block; if it exits, the exit code is 0; and it
    exits exactly when started with [--init] and both schema creation and
    seeding succeeded.  In every other case it is listening. *)
Theorem startup_outcomes (argv_init : bool) (w : world) :
  (forall e, fst (startup argv_init w) <> Crashed e) /\
  (forall c, fst (startup argv_init w) = Exited c -> c = 0) /\
  (fst (startup argv_init w) = Exited 0 <->
   argv_init = true /\
   exists w1 w2, ensureSchema w = (Ok tt, w1) /\ seedIfEmpty w1 = (Ok tt, w2)) /\
  (fst (startup argv_init w) = Listening \/ fst (startup argv_init w) = Exited 0).
Proof.
  unfold startup, init, try_catch, bind.
  destruct (ensureSchema w) as [[[]|e|c] w1] eqn:E1;
    [|simpl|exfalso; by apply (never_exits_ensureSchema _ _ _ E1)].
  - destruct (seedIfEmpty w1) as [[[]|e|c] w2] eqn:E2;
      [| |exfalso; by apply (never_exits_seedIfEmpty _ _ _ E2)].
    + destruct argv_init; rewrite E2; simpl.
      * split; [intros ?; discriminate|].
        split; [intros ? HH; by inversion HH|].
        split; [|by right].
        split; [intros _; split; [reflexivity | by exists w1, w2] | reflexivity].
      * split; [intros ?; discriminate|].
        split; [intros ? HH; discriminate HH|].
        split; [|by left].
        split; [intros HH; discriminate HH | intros [HH _]; discriminate HH].
    + assert (Hno : ~ (exists w1' w2' : world,
                         (Ok tt, w1) = (Ok tt, w1') /\
                         seedIfEmpty w1' = (Ok tt, w2'))).
      { intros (w1' & w2' & H1 & H2). inversion H1; subst. congruence. }
      destruct argv_init; rewrite E2; simpl.
      * split; [intros ?; discriminate|].
        split; [intros ? HH; discriminate HH|].
        split; [|by left].
        split; [intros HH; discriminate HH | intros [_ HH]; by destruct Hno].
      * split; [intros ?; discriminate|].
        split; [intros ? HH; discriminate HH|].
        split; [|by left].
        split; [intros HH; discriminate HH | intros [_ HH]; by destruct Hno].
  - split; [intros ?; discriminate|].
    split; [intros ? HH; discriminate HH|].
    split; [|by left].
    split; [intros HH; discriminate HH |
            intros (_ & w1' & w2' & H1 & _); discriminate H1].
Qed.

(** ** Schema creation, once more *)

Lemma tables_ensure_table n c d k :
  tables (ensure_table n c d) !! k =
  match tables d !! k with
  | Some t => Some t
  | None => if decide (k = n) then Some (Table c [] 0) else None
  end.
Proof.
  unfold ensure_table. destruct (tables d !! n) as [t|] eqn:E.
  - destruct (tables d !! k) as [t'|] eqn:Ek; [done|].
    case_decide; [subst; congruence | done].
  - simpl. destruct (decide (k = n)) as [->|Hne].
    + by rewrite lookup_insert_eq, E.
    + rewrite lookup_insert_ne by done. by destruct (tables d !! k).
Qed.

Lemma migrated_stock sf d name :
  stock_schema sf ->
  tables (migrated sf d) !! name =
  match tables d !! name with
  | Some t => Some t
  | None => canonical_table name
  end.
Proof.
  intros [-> | [-> | ->]]; unfold migrated, canonical_table; simpl;
    rewrite !tables_ensure_table; simpl;
    destruct (tables d !! name); try done;
    repeat case_decide; subst; try done.
Qed.

(** X14.  The schema file is optional.  When no storage call fails and
    schema.sql is the file of the repository, is blank, or is missing,
    schema creation succeeds with one and the same result: every table
    that existed is unchanged, and each of [users], [services], [messages]
    that was absent now exists, empty, with the columns of schema.sql;
    nothing else is created. *)
Theorem schema_file_is_optional (w : world) :
  fault_free w ->
  stock_schema (schema_file w) ->
  exists w1,
    ensureSchema w = (Ok tt, w1) /\
    forall name,
      tables (db w1) !! name =
      match tables (db w) !! name with
      | Some t => Some t
      | None => canonical_table name
      end.
Proof.
  intros Hq Hs.
  assert (Hddl : ddl_only (schema_file w)).
  { destruct Hs as [-> | [-> | ->]]; reflexivity. }
  rewrite (ensureSchema_quiet w Hq Hddl). eexists. split; [reflexivity|].
  intros name. simpl. by apply migrated_stock.
Qed.

Lemma frame_tables_kept : frame tables_kept.
Proof.
  split; unfold tables_kept.
  - intros w _. by split.
  - intros w1 w2 w3 H1 H2 Hd. destruct (H1 Hd) as [Hs1 Hk1].
    destruct H2 as [Hs2 Hk2]; [by rewrite Hs1|].
    split; [congruence|]. intros k t Hk. by apply Hk2, Hk1.
  - intros w fs _. by split.
  - intros w c _. by split.
Qed.

Lemma sql_step_keeps d n s ps d' rows :
  (is_ddl s = true \/ is_query s = true \/ exists k v, s = Pragma k v) ->
  sql_step d n s ps = Done (d', rows) ->
  forall k t, tables d !! k = Some t -> tables d' !! k = Some t.
Proof.
  intros Hs Hstep k t Hk.
  destruct Hs as [Hs | [Hs | (k0 & v & ->)]].
  - destruct s; simpl in Hs; try discriminate.
    + unfold sql_step in Hstep. case_bool_decide; [discriminate|].
      inversion Hstep; subst. exact Hk.
    + unfold sql_step in Hstep. case_bool_decide; [discriminate|].
      pose proof (proj2 (ensure_table_keeps name cols d) k t Hk) as Hkeep.
      unfold ensure_table in Hkeep.
      destruct (tables d !! name); inversion Hstep; subst; exact Hkeep.
  - by rewrite (sql_step_query _ _ _ _ _ _ Hs Hstep).
  - unfold sql_step in Hstep. case_bool_decide; [discriminate|].
    inversion Hstep; subst. exact Hk.
Qed.

Lemma preserves_statement_keeps s ps :
  (is_ddl s = true \/ is_query s = true \/ exists k v, s = Pragma k v) ->
  preserves tables_kept (statement s ps).
Proof.
  intros Hs. unfold statement.
  apply preserves_bind; [apply frame_tables_kept |
                         apply preserves_storage_call, frame_tables_kept |].
  intros _ w o w'.
  destruct (sql_step _ _ _ _) as [[d rows]|e] eqn:E; intros H; inversion H; subst.
  - intros _. split; [reflexivity|]. simpl. by apply (sql_step_keeps _ _ _ _ _ _ Hs E).
  - intros _. by split.
Qed.

Lemma sql_script_keeps d n script d' oe :
  forallb is_ddl script = true ->
  sql_script d n script = (d', oe) ->
  forall k t, tables d !! k = Some t -> tables d' !! k = Some t.
Proof.
  intros Hs H. rewrite (sql_script_ddl d n script Hs) in H. inversion H; subst.
  apply foldl_ddl_keeps.
Qed.

Lemma preserves_run_keeps s ps :
  (is_ddl s = true \/ is_query s = true \/ exists k v, s = Pragma k v) ->
  preserves tables_kept (run s ps).
Proof.
  intros Hs. unfold run.
  apply preserves_bind; [apply frame_tables_kept | by apply preserves_statement_keeps |].
  intros; apply preserves_ret, frame_tables_kept.
Qed.

Lemma preserves_create_if_missing_keeps name cols :
  preserves tables_kept (create_if_missing name cols).
Proof.
  unfold create_if_missing.
  apply preserves_bind; [apply frame_tables_kept | |].
  - unfold get. apply preserves_bind; [apply frame_tables_kept | |].
    + apply preserves_statement_keeps. right. by left.
    + intros; apply preserves_ret, frame_tables_kept.
  - intros [r|]; [apply preserves_ret, frame_tables_kept|].
    apply preserves_run_keeps. by left.
Qed.

Lemma preserves_exec_keeps script :
  forallb is_ddl script = true -> preserves tables_kept (exec script).
Proof.
  intros Hs w o w'. unfold exec, bind, storage_call.
  destruct w as [d sf ss fs n cs]. simpl.
  destruct fs as [|[] fs]; simpl;
    try (destruct (sql_script d n script) as [d' [e|]] eqn:E);
    intros H; inversion H; subst; intros _; simpl; (split; [done|]);
    try done; simpl; apply (sql_script_keeps _ _ _ _ _ Hs E).
Qed.

(** X15.  Schema creation loses nothing, even when it fails.  Whatever
    storage calls fail and wherever schema creation stops, every table that
    existed before is still there afterwards with the same columns and rows
    (given a schema file of comments and table creations only); and schema
    creation ends by returning or throwing. *)
Theorem ensure_schema_loses_nothing (w : world) o (w' : world) :
  ddl_only (schema_file w) ->
  ensureSchema w = (o, w') ->
  (forall k t, tables (db w) !! k = Some t -> tables (db w') !! k = Some t) /\
  (o = Ok tt \/ exists e, o = Throw e).
Proof.
  intros Hddl H. split.
  - assert (Hp : preserves tables_kept ensureSchema).
    { unfold ensureSchema. pose proof frame_tables_kept as F.
      apply preserves_bind; [exact F | apply preserves_run_keeps; right; right; eauto |].
      intros _.
      apply preserves_bind; [exact F | apply preserves_run_keeps; right; right; eauto |].
      intros _ w0 o0 w0' H0 Hd0.
      unfold bind at 1 in H0. unfold read_schema in H0. cbv beta iota in H0.
      pose proof Hd0 as Hd.
      refine (preserves_bind tables_kept _ _ F _ _ w0 o0 w0' H0 Hd0).
      - destruct (schema_file w0) as [[|s script]|];
          [apply preserves_ret, F | by apply preserves_exec_keeps |
           apply preserves_ret, F].
      - intros _.
        apply preserves_bind; [exact F | apply preserves_create_if_missing_keeps |].
        intros _.
        apply preserves_bind; [exact F | apply preserves_create_if_missing_keeps |].
        intros _.
        apply preserves_bind; [exact F | apply preserves_create_if_missing_keeps |].
        intros _. apply preserves_console_log, F. }
    destruct (Hp w o w' H Hddl) as [_ Hk]. exact Hk.
  - destruct o as [[]|e|c]; eauto.
    exfalso. by apply (never_exits_ensureSchema _ _ _ H).
Qed.

(** ** Seeding, once more *)

Lemma get_count_result w tbl t r w1 :
  tables (db w) !! tbl = Some t ->
  get (SelectCount tbl) [] w = (Ok r, w1) ->
  r = Some [("c", SInt (Z.of_nat (length (t_rows t))))] /\ db w1 = db w.
Proof.
  intros Ht. unfold get, bind at 1, ret.
  destruct (statement _ _ w) as [[rows|e|c] w0] eqn:E; intros H; inversion H; subst.
  apply statement_ok in E. unfold sql_step in E. simpl in E. rewrite Ht in E.
  injection E as Hd Hr. rewrite <- Hr. split; [done | by symmetry].
Qed.

(** X16.  Once [users] has a row, seeding writes nothing, whatever the
    storage layer does: whether the count goes through or fails, the
    database after [seedIfEmpty] is the database before, also when
    [services] and [messages] are empty. *)
Theorem seed_never_reseeds (w : world) (tu : table) o (w' : world) :
  tables (db w) !! "users" = Some tu ->
  t_rows tu <> [] ->
  seedIfEmpty w = (o, w') ->
  db w' = db w.
Proof.
  intros Hu Hne. unfold seedIfEmpty, bind at 1.
  destruct (get (SelectCount "users") [] w) as [[r|e|c] w1] eqn:Eg.
  - destruct (get_count_result w "users" tu r w1 Hu Eg) as [-> Hd].
    simpl. rewrite bool_decide_eq_false_2.
    + intros H. inversion H; subst. exact Hd.
    + intros Heq. inversion Heq as [Hlen].
      destruct (t_rows tu); [done | discriminate].
  - intros H. inversion H; subst.
    apply (preserves_get_query same_db (SelectCount "users") []
             frame_same_db eq_refl _ _ _ Eg).
  - intros H. inversion H; subst.
    apply (preserves_get_query same_db (SelectCount "users") []
             frame_same_db eq_refl _ _ _ Eg).
Qed.

Lemma frame_rows_grow : frame rows_grow.
Proof.
  assert (Hrefl : forall w w', db w' = db w -> rows_grow w w').
  { intros w w' Hd k t Hk. exists t. rewrite Hd. split; [done|]. split; [done|].
    exists []. by rewrite app_nil_r. }
  split.
  - intros w. by apply Hrefl.
  - intros w1 w2 w3 H1 H2 k t Hk.
    destruct (H1 k t Hk) as (t2 & Hk2 & Hc2 & x2 & Hr2).
    destruct (H2 k t2 Hk2) as (t3 & Hk3 & Hc3 & x3 & Hr3).
    exists t3. split; [done|]. split; [congruence|].
    exists (x2 ++ x3)%list. by rewrite Hr3, Hr2, app_assoc.
  - intros w fs. by apply Hrefl.
  - intros w c. by apply Hrefl.
Qed.

Lemma preserves_statement_grow s ps :
  (is_query s = true \/ exists tbl names, s = InsertInto tbl names) ->
  preserves rows_grow (statement s ps).
Proof.
  intros [Hq | (tbl & names & ->)].
  - by apply preserves_statement_query; [apply frame_rows_grow|].
  - unfold statement.
    apply preserves_bind; [apply frame_rows_grow |
                           apply preserves_storage_call, frame_rows_grow |].
    intros _ w o w'.
    destruct (sql_step _ _ _ _) as [[d rows]|e] eqn:E; intros H; inversion H; subst.
    + apply sql_step_insert in E as (t & Ht & _ & ->).
      intros k t0 Hk. simpl. destruct (decide (k = tbl)) as [->|Hne].
      * rewrite lookup_insert_eq. eexists. split; [reflexivity|].
        assert (t0 = t) as -> by congruence. simpl. split; [done|]. by eexists.
      * rewrite lookup_insert_ne by done. exists t0. split; [done|]. split; [done|].
        exists []. by rewrite app_nil_r.
    + apply (fr_refl _ frame_rows_grow).
Qed.

Lemma preserves_run_insert_grow tbl names ps :
  preserves rows_grow (run (InsertInto tbl names) ps).
Proof.
  unfold run. apply preserves_bind; [apply frame_rows_grow | |].
  - apply preserves_statement_grow. right. eauto.
  - intros; apply preserves_ret, frame_rows_grow.
Qed.

(** X17.  Seeding only appends.  However [seedIfEmpty] ends (it returns or
    throws, it never exits), every table that existed is still there with
    its columns, and its former rows are still its first rows, unchanged
    and in order. *)
Theorem seed_only_appends (w : world) o (w' : world) :
  seedIfEmpty w = (o, w') ->
  (forall k t, tables (db w) !! k = Some t ->
     exists t', tables (db w') !! k = Some t' /\
                t_cols t' = t_cols t /\
                exists extra, t_rows t' = (t_rows t ++ extra)%list) /\
  (o = Ok tt \/ exists e, o = Throw e).
Proof.
  intros H. split.
  - pose proof frame_rows_grow as F.
    assert (Hins : forall l, preserves rows_grow (insert_services l)).
    { induction l as [|s l IH]; simpl; [apply preserves_ret, F|].
      apply preserves_bind; [exact F | apply preserves_run_insert_grow | intros _; exact IH]. }
    cut (preserves rows_grow seedIfEmpty); [intros Hp; exact (Hp w o w' H)|].
    unfold seedIfEmpty.
    apply preserves_bind; [exact F | |].
    + unfold get. apply preserves_bind; [exact F | |].
      * apply preserves_statement_grow. by left.
      * intros; apply preserves_ret, F.
    + intros [r|]; [|apply preserves_throw, F].
      case_bool_decide; [|apply preserves_ret, F].
      apply preserves_bind; [exact F | apply preserves_run_insert_grow |]. intros _.
      apply preserves_bind; [exact F | apply Hins |]. intros _.
      apply preserves_console_log, F.
  - destruct o as [[]|e|c]; eauto.
    exfalso. by apply (never_exits_seedIfEmpty _ _ _ H).
Qed.

(** ** First start and restart *)

Lemma startup_listening w w1 w2 :
  ensureSchema w = (Ok tt, w1) ->
  seedIfEmpty w1 = (Ok tt, w2) ->
  startup false w = (Listening, w2).
Proof.
  intros H1 H2. unfold startup, init, try_catch, bind. by rewrite H1, H2.
Qed.

(** X18.  First start.  On a database without tables, with schema.sql
    present, blank or missing, and no storage failure, the process ends up
    listening with exactly three tables: [users] holding the administrator
    with id 1, [services] holding the three default services with ids 1, 2
    and 3, and [messages] empty. *)
Theorem first_start (w : world) :
  fault_free w ->
  tables (db w) = ∅ ->
  stock_schema (schema_file w) ->
  exists w',
    startup false w = (Listening, w') /\
    (t_rows <$> tables (db w') !! "users") = Some [admin_row 1] /\
    (t_rows <$> tables (db w') !! "services") = Some (seeded_services 1) /\
    (t_rows <$> tables (db w') !! "messages") = Some [] /\
    (forall name, name <> "users" -> name <> "services" -> name <> "messages" ->
       tables (db w') !! name = None).
Proof.
  intros Hq Hempty Hs.
  assert (Hddl : ddl_only (schema_file w)).
  { destruct Hs as [-> | [-> | ->]]; reflexivity. }
  pose proof (ensureSchema_quiet w Hq Hddl) as H1.
  set (w1 := set_console _ _) in H1.
  assert (Hlk : forall name, tables (db w1) !! name = canonical_table name).
  { intros name. unfold w1. simpl. rewrite (migrated_stock _ _ _ Hs).
    by rewrite Hempty, lookup_empty. }
  destruct (seed_first w1 (Table users_cols [] 0) (Table services_cols [] 0))
    as (w2 & su & ss & H2 & _ & Hu & Hsv & Hother & _);
    try reflexivity; try exact Hq; try (rewrite Hlk; reflexivity).
  exists w2. split; [by apply (startup_listening w w1)|].
  split; [by rewrite Hu|]. split; [by rewrite Hsv|].
  split.
  - rewrite Hother, Hlk by done. reflexivity.
  - intros name Hn1 Hn2 Hn3. rewrite Hother, Hlk by done.
    unfold canonical_table. by repeat case_decide.
Qed.

(** X19.  Restart.  On a database that already has a user, with no
    storage failure, a start ends up listening, inserts nothing and leaves
    every existing table exactly as it was (missing tables are created);
    starting once more after that does not change the database at all. *)
Theorem restart_keeps_data (w : world) (tu : table) :
  fault_free w ->
  ddl_only (schema_file w) ->
  tables (db w) !! "users" = Some tu ->
  t_rows tu <> [] ->
  exists w',
    startup false w = (Listening, w') /\
    (forall k t, tables (db w) !! k = Some t -> tables (db w') !! k = Some t) /\
    exists w'',
      startup false w' = (Listening, w'') /\ db w'' = db w'.
Proof.
  intros Hq Hddl Hu Hne.
  assert (Hstart : forall w0,
            fault_free w0 -> ddl_only (schema_file w0) ->
            tables (db w0) !! "users" = Some tu ->
            exists w1, startup false w0 = (Listening, w1) /\
                       fault_free w1 /\ schema_file w1 = schema_file w0 /\
                       db w1 = migrated (schema_file w0) (db w0)).
  { intros w0 Hq0 Hd0 Hu0.
    pose proof (ensureSchema_quiet w0 Hq0 Hd0) as H1.
    set (w1 := set_console _ _) in H1.
    assert (Hu1 : tables (db w1) !! "users" = Some tu).
    { unfold w1. simpl. by apply migrated_keeps_tables. }
    exists w1. split; [|by repeat split].
    apply (startup_listening w0 w1); [exact H1|].
    by apply (seed_noop w1 tu). }
  destruct (Hstart w Hq Hddl Hu) as (w1 & H1 & Hq1 & Hs1 & Hd1).
  exists w1. split; [exact H1|]. split.
  - intros k t Hk. rewrite Hd1. by apply migrated_keeps_tables.
  - assert (Hu1 : tables (db w1) !! "users" = Some tu).
    { rewrite Hd1. by apply migrated_keeps_tables. }
    destruct (Hstart w1 Hq1) as (w2 & H2 & _ & _ & Hd2); [by rewrite Hs1 | exact Hu1 |].
    exists w2. split; [exact H2|].
    rewrite Hd2, Hs1, Hd1. apply migrated_idem.
Qed.

(** X20.  The seeded administrator can log in.  Provided bcrypt verifies
    the seed password against its own hash, a login with username "admin"
    and password "Admin*1234" against a [users] table holding the seeded
    row is answered with a redirect to /dashboard, and the request's
    session then carries the administrator's id, name and username. *)
Theorem seeded_admin_can_login (req : request) (w : world) (i seq : Z) :
  bcrypt_compare (JStr "Admin*1234")
                 (Some (SText (bcrypt_hash "Admin*1234" 10))) = Some true ->
  r_method req = POST -> r_path req = "/login" ->
  get_field (r_body req) "username" = JStr "admin" ->
  get_field (r_body req) "password" = JStr "Admin*1234" ->
  no_fault_next w ->
  tables (db w) !! "users" = Some (Table users_cols [admin_row i] seq) ->
  handle req w =
    (Ok ([cb_handler h_login_post], Redirect "/dashboard"),
     set_sessions (after_call w)
       (<[sid (load_session w req) := Sess (Some (admin_identity_at i))]>
          (sessions w))).
Proof.
  intros Hlaw Hm Hp Hun Hpw Hf Ht.
  rewrite (handle_login_post req w Hm Hp).
  unfold login_post, try_catch, bind at 1.
  rewrite (get_select_where w "users" "username" _ _ Hf Ht eq_refl),
          load_session_body, Hun, Hpw.
  simpl. rewrite Hlaw. reflexivity.
Qed.

(** ** The contact form, once more *)

Lemma jsval_nested_ind (P : jsval -> Prop) :
  P JUndefined -> P JNull -> (forall b, P (JBool b)) ->
  (forall z r, P (JNum z r)) -> (forall s, P (JStr s)) ->
  (forall xs, Forall P xs -> P (JArr xs)) ->
  (forall fs, P (JObj fs)) ->
  forall v, P v.
Proof.
  intros Hu Hn Hb Hz Hs Ha Ho.
  refine (fix IH (v : jsval) : P v :=
            match v with
            | JUndefined => Hu
            | JNull => Hn
            | JBool b => Hb b
            | JNum z r => Hz z r
            | JStr s => Hs s
            | JArr xs =>
                Ha xs ((fix go (l : list jsval) : Forall P l :=
                          match l with
                          | [] => List.Forall_nil P
                          | x :: l' => @List.Forall_cons _ P x l' (IH x) (go l')
                          end) xs)
            | JObj fs => Ho fs
            end).
Qed.

Lemma String_JArr xs : String_ (JArr xs) = join "," xs.
Proof.
  unfold join. simpl. f_equal. f_equal.
  induction xs as [|x xs IH]; [done|].
  destruct x; simpl; by rewrite IH.
Qed.

Lemma sequence_opt_is_Some {A} (l : list (option A)) :
  is_Some (sequence_opt l) <-> Forall is_Some l.
Proof.
  induction l as [|[a|] l IH]; simpl.
  - split; [constructor | by eexists].
  - destruct (sequence_opt l) as [r|].
    + split; [|by eexists]. intros _. constructor; [by eexists|].
      apply IH. by eexists.
    + split.
      * intros [? ?]. discriminate.
      * intros H. inversion H as [|? ? _ Hl]; subst.
        apply IH in Hl. destruct Hl. discriminate.
  - split.
    + intros [? ?]. discriminate.
    + intros H. inversion H as [|? ? Ha _]; subst. destruct Ha. discriminate.
Qed.

Lemma join_is_Some sep xs :
  is_Some (join sep xs) <-> Forall (fun x => is_Some (join_elem x)) xs.
Proof.
  unfold join. rewrite fmap_is_Some, sequence_opt_is_Some, Forall_map. done.
Qed.

Lemma String_is_Some v : is_Some (String_ v) <-> convertible v = true.
Proof.
  induction v as [| |b|z r|s|xs IH|fs] using jsval_nested_ind;
    try (simpl; split; [done | intros _; by eexists]).
  - destruct b; simpl; (split; [done | intros _; by eexists]).
  - rewrite String_JArr, join_is_Some. simpl.
    induction IH as [|x xs Hx _ IHxs]; simpl.
    + split; [done | constructor].
    + assert (Hj : is_Some (join_elem x) <-> convertible x = true).
      { destruct x; try exact Hx; simpl; (split; [done | intros _; by eexists]). }
      rewrite Forall_cons, andb_true_iff, Hj, IHxs. done.
  - simpl. destruct (assoc "toString" fs);
      (split; [intros [? Hx]; try discriminate Hx; done |
               intros Hx; try discriminate Hx; by eexists]).
Qed.

Lemma topicsStr_is_Some b :
  is_Some (topicsStr b) <-> convertible (get_field b "topics") = true.
Proof.
  unfold topicsStr.
  destruct (get_field b "topics") as [| |c|z r|s|xs|fs] eqn:E.
  - simpl. split; [done | intros _; by eexists].
  - simpl. split; [done | intros _; by eexists].
  - unfold js_or. destruct c; simpl; (split; [done | intros _; by eexists]).
  - unfold js_or. destruct z; simpl; (split; [done | intros _; by eexists]).
  - unfold js_or. simpl. destruct (string_eqb s ""); simpl;
      (split; [done | intros _; by eexists]).
  - rewrite <- String_is_Some, String_JArr, !join_is_Some. done.
  - unfold js_or. simpl (truthy _). cbv iota. apply String_is_Some.
Qed.

(** X21.  When the conversion of the topics fails.  The topics text can be
    built exactly when the submitted value is convertible: not an object
    with an own [toString] key (which only a JSON body can carry) and not
    an array holding one at any depth.  When it cannot, an authenticated
    submission is answered with the failure notice, the conversion error
    is written to the console, and nothing else in the world changes: no
    storage call is made. *)
Theorem contact_conversion_failure (req : request) (w : world) (u : identity) :
  r_method req = POST ->
  r_path req = "/contact" ->
  resolve_identity w req = Some u ->
  (is_Some (topicsStr (r_body req)) <->
   convertible (get_field (r_body req) "topics") = true) /\
  (convertible (get_field (r_body req) "topics") = false ->
   handle req w =
     (Ok (contact_trace, contact_notice u contact_failure),
      logged contact_error_msg conversion_error w)).
Proof.
  intros Hm Hp Hu. split; [apply topicsStr_is_Some|].
  intros Hc. rewrite (handle_contact_post req w u Hm Hp Hu).
  destruct (topicsStr (r_body req)) as [ts|] eqn:E; [|reflexivity].
  assert (Hs : is_Some (topicsStr (r_body req))) by (rewrite E; by eexists).
  apply topicsStr_is_Some in Hs. congruence.
Qed.

Lemma topicsStr_one b1 b2 s :
  get_field b1 "topics" = JArr [JStr s] ->
  get_field b2 "topics" = JStr s ->
  topicsStr b1 = Some s /\ topicsStr b2 = Some s.
Proof.
  intros H1 H2. unfold topicsStr. rewrite H1, H2. split; [reflexivity|].
  unfold js_or. simpl. destruct (string_eqb s "") eqn:E; simpl; [|reflexivity].
  apply string_eqb_eq in E. by subst.
Qed.

(** X22.  One selected topic is stored the same way whether the body
    carries it as a one-element array or as a plain string: the topics text
    is the string itself in both cases, with no separator. *)
Theorem topics_one_selection (b1 b2 : jsval) (s : string) :
  get_field b1 "topics" = JArr [JStr s] ->
  get_field b2 "topics" = JStr s ->
  topicsStr b1 = Some s /\ topicsStr b2 = Some s.
Proof. apply topicsStr_one. Qed.

(** X23.  The topics text does not keep the boundaries between the
    selections: two topics [a] and [b] give the same text as the single
    topic "a, b", sent as an array or as a string. *)
Theorem topics_boundaries_lost (b1 b2 b3 : jsval) (a b : string) :
  get_field b1 "topics" = JArr [JStr a; JStr b] ->
  get_field b2 "topics" = JArr [JStr (a +:+ ", " +:+ b)] ->
  get_field b3 "topics" = JStr (a +:+ ", " +:+ b) ->
  topicsStr b1 = Some (a +:+ ", " +:+ b) /\
  topicsStr b2 = topicsStr b1 /\
  topicsStr b3 = topicsStr b1.
Proof.
  intros H1 H2 H3.
  destruct (topicsStr_one b2 b3 (a +:+ ", " +:+ b) H2 H3) as [E2 E3].
  rewrite E2, E3. unfold topicsStr. rewrite H1. done.
Qed.

Lemma insert_message_null rows seq n a b c ts :
  is_null a || is_null b || is_null c = true ->
  insert_into (Table messages_cols rows seq) n
    ["name"; "email"; "message"; "topics"] [a; b; c; SText ts] =
  Fail (SqlError "SQLITE_CONSTRAINT").
Proof.
  intros H. unfold insert_into, notnull_ok, new_row, insert_value. simpl.
  destruct (is_null a), (is_null b), (is_null c); simpl in *;
    try discriminate; reflexivity.
Qed.

(** X24.  A contact submission whose name, email and message are strings,
    empty ones included (the handler validates nothing), is stored when no
    storage call fails and [messages] has the columns of schema.sql: the
    success notice is rendered and [messages] gets one more row holding the
    three strings as submitted, the topics text, a fresh id one above every
    id so far, and the current timestamp. *)
Theorem contact_strings_stored
    (req : request) (w : world) (u : identity)
    (n e m ts : string) (rows : list row) (seq : Z) :
  r_method req = POST ->
  r_path req = "/contact" ->
  resolve_identity w req = Some u ->
  get_field (r_body req) "name" = JStr n ->
  get_field (r_body req) "email" = JStr e ->
  get_field (r_body req) "message" = JStr m ->
  topicsStr (r_body req) = Some ts ->
  fault_free w ->
  tables (db w) !! "messages" = Some (Table messages_cols rows seq) ->
  let i := next_rowid (Table messages_cols rows seq) in
  let r := message_row i (SText n) (SText e) (SText m) ts (now w) in
  exists w',
    handle req w = (Ok (contact_trace, contact_notice u contact_success), w') /\
    tables (db w') =
      <["messages" := Table messages_cols (rows ++ [r]) (Z.max seq i)]>
        (tables (db w)) /\
    (forall old, old ∈ rows -> row_id "id" old < i).
Proof.
  intros Hm Hp Hu Hn He Hmsg Hts Hq Ht. simpl.
  rewrite (handle_contact_post req w u Hm Hp Hu), Hts.
  unfold contact_insert. rewrite Hn, He, Hmsg.
  erewrite run_insert_quiet; [|exact Hq|exact Ht|simpl; lia|
    simpl; by apply insert_message].
  eexists. split; [reflexivity|]. split; [reflexivity|].
  intros old Hin.
  pose proof (row_id_le_max (Table messages_cols rows seq) "id" old eq_refl Hin).
  unfold next_rowid. lia.
Qed.

(** X25.  A contact submission with a name, email or message that the
    driver binds to NULL (as for a missing field) is never stored in a
    [messages] table with the columns of schema.sql: whatever else happens,
    the answer is the failure notice and the database is unchanged. *)
Theorem contact_null_rejected
    (req : request) (w : world) (u : identity) (rows : list row) (seq : Z) :
  r_method req = POST ->
  r_path req = "/contact" ->
  resolve_identity w req = Some u ->
  tables (db w) !! "messages" = Some (Table messages_cols rows seq) ->
  is_null (bind_param (get_field (r_body req) "name")) = true \/
  is_null (bind_param (get_field (r_body req) "email")) = true \/
  is_null (bind_param (get_field (r_body req) "message")) = true ->
  exists w',
    handle req w = (Ok (contact_trace, contact_notice u contact_failure), w') /\
    db w' = db w.
Proof.
  intros Hm Hp Hu Ht Hnull.
  rewrite (handle_contact_post req w u Hm Hp Hu).
  destruct (topicsStr (r_body req)) as [ts|]; [|by eexists].
  destruct (run_cases (InsertInto "messages" ["name"; "email"; "message"; "topics"])
              [get_field (r_body req) "name"; get_field (r_body req) "email";
               get_field (r_body req) "message"; JStr ts] w)
    as [(e & w1 & Hi) | (w1 & Hi)]; unfold contact_insert.
  - rewrite Hi. eexists. split; [reflexivity|]. simpl. by apply (run_throw_db _ _ _ _ _ Hi).
  - exfalso. apply run_ok in Hi as [rs Hi]. unfold sql_step in Hi.
    case_bool_decide as Hlen; [simpl in Hlen; lia|].
    rewrite Ht in Hi. simpl in Hi. rewrite insert_message_null in Hi; [discriminate|].
    destruct Hnull as [-> | [-> | ->]]; simpl; by rewrite ?orb_true_r.
Qed.

(** ** Login failures that can be told apart *)

(** C4 (defect).  Login failures are not indistinguishable for every
    submission.  Take two submissions carrying the same password value, one
    whose username matches no row of [users], one whose username matches row
    [u], and let bcrypt.compare throw on that password and
    [u.password_hash] (bcryptjs rejects when the password is not a string: a
    missing field, an array, a number).  The unknown username never reaches
    the comparison and is answered with the generic message; the existing
    username reaches it, the exception lands in the catch block, and the
    answer is the internal-error message.  The two answers differ, so the
    client learns that the username exists. *)
Theorem login_compare_throw_reveals_username
    (w : world) (ra rb : request) (t : table) (u : row) :
  r_method ra = POST -> r_path ra = "/login" ->
  r_method rb = POST -> r_path rb = "/login" ->
  no_fault_next w ->
  tables (db w) !! "users" = Some t ->
  has_col t "username" = true ->
  get_field (r_body ra) "password" = get_field (r_body rb) "password" ->
  head (select_where t "username"
          (bind_param (get_field (r_body ra) "username"))) = None ->
  head (select_where t "username"
          (bind_param (get_field (r_body rb) "username"))) = Some u ->
  bcrypt_compare (get_field (r_body rb) "password")
                 (assoc "password_hash" u) = None ->
  handle ra w =
    (Ok ([cb_handler h_login_post],
         Render "login" [("error", VStr invalid_credentials)]),
     after_call w) /\
  handle rb w =
    (Ok ([cb_handler h_login_post], internal_error),
     logged login_error_msg (LibError "bcrypt.compare") (after_call w)) /\
  fst (handle ra w) <> fst (handle rb w).
Proof.
  intros Ham Hap Hbm Hbp Hf Ht Hc Hpw Ha Hb Hcmp.
  assert (Hra : handle ra w =
                  (Ok ([cb_handler h_login_post],
                       Render "login" [("error", VStr invalid_credentials)]),
                   after_call w)).
  { rewrite (handle_login_post ra w Ham Hap).
    unfold login_post, try_catch, bind at 1.
    rewrite (get_select_where w _ _ _ t Hf Ht Hc), load_session_body, Ha.
    reflexivity. }
  assert (Hrb : handle rb w =
                  (Ok ([cb_handler h_login_post], internal_error),
                   logged login_error_msg (LibError "bcrypt.compare")
                     (after_call w))).
  { rewrite (handle_login_post rb w Hbm Hbp).
    unfold login_post, try_catch, bind at 1.
    rewrite (get_select_where w _ _ _ t Hf Ht Hc), load_session_body, Hb, Hcmp.
    reflexivity. }
  split; [exact Hra|]. split; [exact Hrb|].
  rewrite Hra, Hrb. simpl. unfold internal_error, invalid_credentials.
  intros H. inversion H.
Qed.

End Properties.

(** * Examples *)


(** The same endpoint with the session of a logged-in administrator. *)
Example dashboard_logged_in :
  fst (@handle sample_externals (with_cookie anonymous_dashboard) logged_in_world) =
  Ok ([cb_requireAuth; cb_handler h_dashboard],
      Render "dashboard"
        [("user", VUser (Some admin_identity));
         ("services", VRows (@seeded_services 1))]).
Proof. vm_compute. reflexivity. Qed.

Lemma seed_if_empty_once_witness :
  exists w1 tu1 ts1,
    @seedIfEmpty sample_externals schema_world = (Ok tt, w1) /\
    tables (db w1) !! "users" = Some tu1 /\
    t_rows tu1 = [@admin_row sample_externals 1] /\
    tables (db w1) !! "services" = Some ts1 /\
    t_rows ts1 = seeded_services 1 /\
    @seedIfEmpty sample_externals w1 = (Ok tt, w1).
Proof.
  destruct (@seed_if_empty_once sample_externals schema_world
              (Table users_cols [] 0)) as [_ H].
  - reflexivity.
  - vm_compute. reflexivity.
  - destruct (H eq_refl eq_refl (Table services_cols [] 0))
      as (w1 & tu1 & ts1 & H1 & H2 & H3 & _ & H5 & H6 & _ & _ & H9).
    + vm_compute. reflexivity.
    + reflexivity.
    + exists w1, tu1, ts1. repeat split; assumption.
Defined.

(** A second start on the seeded database leaves one user and three
    services. *)
Example restart_does_not_reseed :
  db (snd (@startup sample_externals false ready_world)) = db ready_world.
Proof. vm_compute. reflexivity. Qed.

Lemma init_failure_is_logged_witness :
  @startup sample_externals false failing_world =
    (Listening, logged init_error_msg env_failure
                  (set_faults failing_world [])) /\
  @init_r2 sample_externals failing_world =
    (Ok tt, logged init_error_msg env_failure (set_faults failing_world [])).
Proof.
  destruct (@init_failure_is_logged sample_externals false failing_world
              env_failure (set_faults failing_world [])) as (_ & H1 & H2).
  - left. reflexivity.
  - split; [exact H1 | exact H2].
Defined.

(** C3 as stated fails: the first storage call of schema creation fails,
    and the process is listening all the same. *)
Lemma schema_failure_counterexample :
  fst (@ensureSchema sample_externals failing_world) = Throw env_failure /\
  fst (@startup sample_externals false failing_world) = Listening /\
  fst (@startup sample_externals true failing_world) = Listening /\
  fst (@init_r2 sample_externals failing_world) = Ok tt.
Proof. repeat split; reflexivity. Qed.

(** A failure in the middle of seeding (here the insert of the first
    service) is logged as well; the administrator stays inserted. *)
Example seed_failure_is_logged :
  fst (@startup sample_externals false seed_failing_world) = Listening /\
  (t_rows <$> tables (db (snd (@startup sample_externals false seed_failing_world)))
     !! "users") = Some [@admin_row sample_externals 1] /\
  (t_rows <$> tables (db (snd (@startup sample_externals false seed_failing_world)))
     !! "services") = Some [].
Proof. repeat split; vm_compute; reflexivity. Qed.

(** With [--init] and no failure the process exits with code 0. *)
Example init_switch_exits :
  fst (@startup sample_externals true fresh_world) = Exited 0.
Proof. vm_compute. reflexivity. Qed.

Lemma login_failures_indistinguishable_witness :
  @handle sample_externals login_unknown_user ready_world =
    (Ok ([cb_handler h_login_post],
         Render "login" [("error", VStr invalid_credentials)]),
     after_call ready_world) /\
  @handle sample_externals login_wrong_password ready_world =
    (Ok ([cb_handler h_login_post],
         Render "login" [("error", VStr invalid_credentials)]),
     after_call ready_world).
Proof.
  destruct (@login_failures_indistinguishable sample_externals ready_world
              login_unknown_user login_wrong_password
              (Table users_cols [@admin_row sample_externals 1] 1)
              (@admin_row sample_externals 1))
    as (Ha & Hb & _).
  - reflexivity.
  - reflexivity.
  - reflexivity.
  - reflexivity.
  - vm_compute. discriminate.
  - vm_compute. reflexivity.
  - reflexivity.
  - vm_compute. reflexivity.
  - vm_compute. reflexivity.
  - vm_compute. reflexivity.
  - split; [exact Ha | exact Hb].
Defined.

(** The right password logs the administrator in. *)
Example login_succeeds :
  fst (@handle sample_externals login_admin ready_world) =
    Ok ([cb_handler h_login_post], Redirect "/dashboard") /\
  resolve_identity logged_in_world (with_cookie anonymous_dashboard) =
    Some admin_identity.
Proof. split; vm_compute; reflexivity. Qed.

Lemma ensure_schema_idempotent_witness :
  exists w1 w2,
    @ensureSchema sample_externals fresh_world = (Ok tt, w1) /\
    @ensureSchema sample_externals w1 = (Ok tt, w2) /\
    db w2 = db w1.
Proof.
  destruct (@ensure_schema_idempotent sample_externals fresh_world)
    as (w1 & w2 & H1 & H2 & H3 & _).
  - reflexivity.
  - reflexivity.
  - exists w1, w2. repeat split; assumption.
Defined.

(** On a database without tables, schema creation makes the three tables
    of schema.sql, empty. *)
Example ensure_schema_fresh :
  tables (db schema_world) =
  {[ "users" := Table users_cols [] 0;
     "services" := Table services_cols [] 0;
     "messages" := Table messages_cols [] 0 ]}.
Proof. vm_compute. reflexivity. Qed.

Lemma contact_topics_list_witness :
  exists r,
    message_added logged_in_world
      (snd (@handle sample_externals contact_two_topics logged_in_world)) r /\
    assoc "topics" r = Some (SText "billing, support").
Proof.
  destruct (@contact_topics_list sample_externals contact_two_topics
              logged_in_world admin_identity [JStr "billing"; JStr "support"])
    as (resp & w' & Hh & Hcases).
  - reflexivity.
  - reflexivity.
  - vm_compute. reflexivity.
  - left. reflexivity.
  - assert (Hresp : resp = contact_notice admin_identity contact_success).
    { vm_compute in Hh. inversion Hh. reflexivity. }
    assert (Hw : snd (@handle sample_externals contact_two_topics logged_in_world) = w').
    { rewrite Hh. reflexivity. }
    destruct Hcases as [[Hf _] | (_ & r & ts & Hadd & Ht & _ & _ & Hex & _)].
    + rewrite Hf in Hresp. discriminate Hresp.
    + exists r. rewrite Hw. split; [exact Hadd|].
      rewrite Ht, (Hex eq_refl). reflexivity.
Defined.

(** No topic selected: the field is absent from the body and the empty
    string is stored. *)
Example contact_no_topics :
  (default (Table [] [] 0)
     (tables (db (snd (@handle sample_externals contact_no_topic logged_in_world)))
        !! "messages")) =
  Table messages_cols
    [message_row 1 (SText "Ana") (SText "ana@example.com") (SText "Hola") ""
       "2024-01-01 00:00:00"] 1.
Proof. vm_compute. reflexivity. Qed.

Lemma contact_insert_outcome_witness :
  exists w1,
    @contact_insert sample_externals (r_body contact_two_topics)
      "billing, support" logged_in_world = (Ok tt, w1) /\
    @handle sample_externals contact_two_topics logged_in_world =
      (Ok (contact_trace, contact_notice admin_identity contact_success), w1).
Proof.
  destruct (@contact_insert_outcome sample_externals contact_two_topics
              logged_in_world admin_identity "billing, support")
    as (_ & Hok & _).
  - reflexivity.
  - reflexivity.
  - vm_compute. reflexivity.
  - vm_compute. reflexivity.
  - eexists. split; [reflexivity|].
    apply Hok. reflexivity.
Defined.

(** A submission without a name violates NOT NULL: nothing is stored and
    the failure notice is rendered. *)
Example contact_without_name_fails :
  fst (@handle sample_externals contact_nameless logged_in_world) =
    Ok (contact_trace, contact_notice admin_identity contact_failure) /\
  db (snd (@handle sample_externals contact_nameless logged_in_world)) =
    db logged_in_world.
Proof. split; vm_compute; reflexivity. Qed.

Lemma hosting_lookup_witness :
  exists resp w',
    @handle sample_externals (with_cookie hosting_request) logged_in_world =
      (Ok ([cb_requireAuth; cb_handler h_hosting], resp), w').
Proof.
  destruct (@hosting_lookup sample_externals (with_cookie hosting_request)
              logged_in_world admin_identity) as [H _].
  - reflexivity.
  - reflexivity.
  - vm_compute. reflexivity.
  - exact H.
Defined.

(** The seeded database has the row; a database without it passes the
    absent value. *)
Example hosting_present_and_absent :
  fst (@handle sample_externals (with_cookie hosting_request) logged_in_world) =
    Ok ([cb_requireAuth; cb_handler h_hosting],
        Render "hosting"
          [("user", VUser (Some admin_identity));
           ("hosting", VRow (Some (service_row 1 "Hosting Web Compartido"
              "Desde $5.99 Anual"
              "Plan rápido, seguro y económico para iniciar tu sitio.")))]) /\
  fst (@handle sample_externals (with_cookie hosting_request) unseeded_world) =
    Ok ([cb_requireAuth; cb_handler h_hosting],
        Render "hosting"
          [("user", VUser (Some admin_identity)); ("hosting", VRow None)]).
Proof. split; vm_compute; reflexivity. Qed.

Lemma logout_is_public_witness :
  @handle sample_externals anonymous_logout fresh_world =
    (Ok ([cb_handler h_logout], Redirect "/login"),
     set_sessions fresh_world
       (delete (sid (load_session fresh_world anonymous_logout))
               (sessions fresh_world))).
Proof.
  apply (@logout_is_public sample_externals anonymous_logout fresh_world);
    reflexivity.
Defined.

(** C9 as stated fails: an unauthenticated POST /logout is not stopped by
    the gate, its handler runs. *)
Lemma logout_gate_counterexample :
  resolve_identity fresh_world anonymous_logout = None /\
  fst (@handle sample_externals anonymous_logout fresh_world) =
    Ok ([cb_handler h_logout], Redirect "/login") /\
  fst (@handle sample_externals anonymous_logout fresh_world) <>
    Ok ([cb_requireAuth], Redirect "/login").
Proof.
  split; [reflexivity|]. split; [reflexivity|].
  vm_compute. discriminate.
Qed.

(** After logging out, the old cookie no longer opens the dashboard. *)
Example logout_invalidates_cookie :
  fst (@handle sample_externals (with_cookie anonymous_dashboard)
         (snd (@handle sample_externals (with_cookie anonymous_logout)
                 logged_in_world))) =
  Ok ([cb_requireAuth], Redirect "/login").
Proof. vm_compute. reflexivity. Qed.

Lemma contact_topics_single_witness :
  exists r,
    message_added logged_in_world
      (snd (@handle sample_externals contact_one_topic logged_in_world)) r /\
    assoc "topics" r = Some (SText "billing").
Proof.
  destruct (@contact_topics_single sample_externals contact_one_topic
              logged_in_world admin_identity (JStr "billing"))
    as (resp & w' & Hh & Hcases).
  - reflexivity.
  - reflexivity.
  - vm_compute. reflexivity.
  - reflexivity.
  - reflexivity.
  - assert (Hresp : resp = contact_notice admin_identity contact_success).
    { vm_compute in Hh. inversion Hh. reflexivity. }
    assert (Hw : snd (@handle sample_externals contact_one_topic logged_in_world) = w').
    { rewrite Hh. reflexivity. }
    destruct Hcases as [[Hf _] | (_ & r & ts & Hadd & Ht & _ & _ & Hs)].
    + rewrite Hf in Hresp. discriminate Hresp.
    + exists r. rewrite Hw. split; [exact Hadd|].
      rewrite Ht, (Hs "billing" eq_refl). reflexivity.
Defined.

(** A falsy or missing selection is stored as the empty string; an
    object is stored as its string conversion. *)
Example topicsStr_samples :
  topicsStr (JObj []) = Some "" /\
  topicsStr (JObj [("topics", JNull)]) = Some "" /\
  topicsStr (JObj [("topics", JBool false)]) = Some "" /\
  topicsStr (JObj [("topics", JNum true "0")]) = Some "" /\
  topicsStr (JObj [("topics", JStr "")]) = Some "" /\
  topicsStr (JObj [("topics", JNum false "7")]) = Some "7" /\
  topicsStr (JObj [("topics", JObj [("a", JStr "b")])]) = Some "[object Object]" /\
  topicsStr (JObj [("topics", JArr [JStr "a"; JNull; JArr [JStr "b"; JStr "c"]])])
    = Some "a, , b,c".
Proof. repeat split; reflexivity. Qed.

(** When bcrypt.compare throws (the sample comparison does so for a
    password that is not a string), an existing username gets the
    internal-error message. *)
Example login_compare_throws :
  fst (@handle sample_externals
         (Request POST "/login" None (JObj [("username", JStr "admin")]) "sid-1")
         ready_world) =
  Ok ([cb_handler h_login_post],
      Render "login" [("error", VStr "Error interno. Intenta de nuevo.")]).
Proof. vm_compute. reflexivity. Qed.

(** ** Examples for the further properties *)

Lemma only_contact_writes_witness :
  db (snd (@handle sample_externals login_admin ready_world)) = db ready_world.
Proof.
  apply (@only_contact_writes sample_externals login_admin ready_world
           (fst (@handle sample_externals login_admin ready_world))).
  - intros [_ H]. vm_compute in H. discriminate H.
  - vm_compute. reflexivity.
Defined.

Lemma session_store_footprint_witness :
  sessions logged_in_world !! "sid-2" = sessions ready_world !! "sid-2".
Proof.
  destruct (@session_store_footprint sample_externals login_admin ready_world
              (fst (@handle sample_externals login_admin ready_world))
              logged_in_world) as [H _].
  - vm_compute. reflexivity.
  - apply H. simpl. discriminate.
Defined.

Lemma stored_sessions_have_users_witness : sessions_have_users logged_in_world.
Proof.
  apply (@stored_sessions_have_users sample_externals login_admin ready_world
           (fst (@handle sample_externals login_admin ready_world))).
  - assert (Hs : sessions ready_world = ∅) by (vm_compute; reflexivity).
    intros t s H. rewrite Hs, lookup_empty in H. discriminate.
  - vm_compute. reflexivity.
Defined.

Lemma at_most_one_storage_call_witness :
  faults (snd (@handle sample_externals login_admin failing_world)) =
    faults failing_world \/
  faults (snd (@handle sample_externals login_admin failing_world)) =
    tail (faults failing_world).
Proof.
  apply (@at_most_one_storage_call sample_externals login_admin failing_world
           (fst (@handle sample_externals login_admin failing_world))).
  vm_compute. reflexivity.
Defined.

Lemma login_success_witness :
  @handle sample_externals login_admin ready_world =
    (Ok ([cb_handler h_login_post], Redirect "/dashboard"),
     set_sessions (after_call ready_world)
       (<["sid-1" := Sess (Some admin_identity)]> (sessions ready_world))).
Proof.
  destruct (@login_success sample_externals login_admin ready_world
              (Table users_cols [@admin_row sample_externals 1] 1)
              (@admin_row sample_externals 1)) as (H & _ & _).
  - reflexivity.
  - reflexivity.
  - vm_compute. discriminate.
  - vm_compute. reflexivity.
  - reflexivity.
  - vm_compute. reflexivity.
  - vm_compute. reflexivity.
  - exact H.
Defined.

Lemma login_internal_error_witness :
  @handle sample_externals login_admin failing_world =
    (Ok ([cb_handler h_login_post], internal_error),
     logged login_error_msg env_failure (set_faults failing_world [])).
Proof.
  destruct (@login_internal_error sample_externals login_admin failing_world
              env_failure (set_faults failing_world [])) as (H & _ & _).
  - reflexivity.
  - reflexivity.
  - left. reflexivity.
  - exact H.
Defined.

Lemma login_then_logout_witness :
  exists w1 w2,
    @handle sample_externals login_admin ready_world =
      (Ok ([cb_handler h_login_post], Redirect "/dashboard"), w1) /\
    @handle sample_externals (with_cookie anonymous_logout) w1 =
      (Ok ([cb_handler h_logout], Redirect "/login"), w2) /\
    @handle sample_externals (with_cookie anonymous_dashboard) w2 =
      (Ok ([cb_requireAuth], Redirect "/login"), w2).
Proof.
  destruct (@login_then_logout sample_externals login_admin
              (with_cookie anonymous_logout) (with_cookie anonymous_dashboard)
              ready_world
              (Table users_cols [@admin_row sample_externals 1] 1)
              (@admin_row sample_externals 1))
    as (w1 & w2 & H1 & H2 & _ & _ & H3).
  - reflexivity.
  - reflexivity.
  - vm_compute. discriminate.
  - vm_compute. reflexivity.
  - reflexivity.
  - vm_compute. reflexivity.
  - vm_compute. reflexivity.
  - reflexivity.
  - reflexivity.
  - reflexivity.
  - simpl. apply list_elem_of_here.
  - reflexivity.
  - exists w1, w2. split; [exact H1|]. split; [exact H2 | exact H3].
Defined.

Lemma no_redirect_loop_witness :
  @handle sample_externals root_request logged_in_world =
    (Ok ([cb_handler h_root], Redirect "/login"), logged_in_world) /\
  @handle sample_externals login_page_request logged_in_world =
    (Ok ([cb_handler h_login_get], Redirect "/dashboard"), logged_in_world).
Proof.
  destruct (@no_redirect_loop sample_externals root_request login_page_request
              (with_cookie anonymous_dashboard) logged_in_world) as [H1 H2].
  - reflexivity.
  - reflexivity.
  - reflexivity.
  - reflexivity.
  - reflexivity.
  - reflexivity.
  - reflexivity.
  - split; [exact H1|].
    assert (Hu : resolve_identity logged_in_world login_page_request =
                 Some admin_identity) by (vm_compute; reflexivity).
    rewrite Hu in H2. exact (proj1 H2).
Defined.

Lemma dashboard_lists_services_witness :
  @handle sample_externals (with_cookie anonymous_dashboard) logged_in_world =
    (Ok ([cb_requireAuth; cb_handler h_dashboard],
         Render "dashboard"
           [("user", VUser (Some admin_identity));
            ("services", VRows (seeded_services 1))]),
     after_call logged_in_world).
Proof.
  apply (@dashboard_lists_services sample_externals
           (with_cookie anonymous_dashboard) logged_in_world admin_identity
           (Table services_cols (seeded_services 1) 3)).
  - reflexivity.
  - reflexivity.
  - vm_compute. reflexivity.
  - vm_compute. discriminate.
  - vm_compute. reflexivity.
Defined.

Lemma read_failure_gives_500_witness :
  exists w',
    @handle sample_externals (with_cookie hosting_request) down_world =
      (Ok ([cb_requireAuth; cb_handler h_hosting],
           Send 500 "Error cargando hosting"), w') /\
    db w' = db down_world.
Proof.
  destruct (@read_failure_gives_500 sample_externals
              (with_cookie hosting_request) down_world admin_identity)
    as (w' & H & Hd & _).
  - reflexivity.
  - right. reflexivity.
  - vm_compute. reflexivity.
  - left. reflexivity.
  - exists w'. split; [exact H | exact Hd].
Defined.

Lemma static_pages_render_witness :
  exists h,
    @handle sample_externals vps_request down_world =
      (Ok ([cb_requireAuth; cb_handler h],
           Render "services/vps" [("user", VUser (Some admin_identity))]),
       down_world).
Proof.
  destruct (@static_pages_render sample_externals vps_request down_world
              admin_identity "services/vps" []) as (h & H & _).
  - reflexivity.
  - simpl. apply list_elem_of_further, list_elem_of_further, list_elem_of_here.
  - vm_compute. reflexivity.
  - exists h. exact H.
Defined.

Lemma schema_file_is_optional_witness :
  exists w1,
    @ensureSchema sample_externals no_schema_world = (Ok tt, w1) /\
    tables (db w1) !! "users" = Some (Table users_cols [] 0) /\
    tables (db w1) !! "services" = Some (Table services_cols [] 0) /\
    tables (db w1) !! "messages" = Some (Table messages_cols [] 0).
Proof.
  destruct (@schema_file_is_optional sample_externals no_schema_world)
    as (w1 & H1 & H2).
  - reflexivity.
  - left. reflexivity.
  - exists w1. split; [exact H1|]. rewrite !H2. repeat split; reflexivity.
Defined.

Lemma ensure_schema_loses_nothing_witness :
  tables (db (snd (@ensureSchema sample_externals interrupted_world))) !! "users"
    = Some (Table users_cols [@admin_row sample_externals 1] 1).
Proof.
  apply (@ensure_schema_loses_nothing sample_externals interrupted_world
           (fst (@ensureSchema sample_externals interrupted_world))).
  - vm_compute. reflexivity.
  - vm_compute. reflexivity.
  - vm_compute. reflexivity.
Defined.

Lemma seed_never_reseeds_witness :
  db (snd (@seedIfEmpty sample_externals seeded_down_world)) =
  db seeded_down_world.
Proof.
  apply (@seed_never_reseeds sample_externals seeded_down_world
           (Table users_cols [@admin_row sample_externals 1] 1)
           (fst (@seedIfEmpty sample_externals seeded_down_world))).
  - vm_compute. reflexivity.
  - simpl. discriminate.
  - vm_compute. reflexivity.
Defined.

Lemma seed_only_appends_witness :
  exists t',
    tables (db (snd (@seedIfEmpty sample_externals half_seeded_world))) !! "messages"
      = Some t' /\
    t_cols t' = messages_cols /\
    exists extra, t_rows t' = ([] ++ extra)%list.
Proof.
  apply (proj1 (@seed_only_appends sample_externals half_seeded_world
                  (fst (@seedIfEmpty sample_externals half_seeded_world))
                  (snd (@seedIfEmpty sample_externals half_seeded_world))
                  ltac:(vm_compute; reflexivity))
           "messages" (Table messages_cols [] 0)).
  vm_compute. reflexivity.
Defined.

Lemma first_start_witness :
  exists w',
    @startup sample_externals false fresh_world = (Listening, w') /\
    (t_rows <$> tables (db w') !! "users") = Some [@admin_row sample_externals 1] /\
    (t_rows <$> tables (db w') !! "services") = Some (seeded_services 1) /\
    (t_rows <$> tables (db w') !! "messages") = Some [].
Proof.
  destruct (@first_start sample_externals fresh_world)
    as (w' & H1 & H2 & H3 & H4 & _).
  - reflexivity.
  - reflexivity.
  - right. right. reflexivity.
  - exists w'. repeat split; assumption.
Defined.

Lemma restart_keeps_data_witness :
  exists w',
    @startup sample_externals false ready_world = (Listening, w') /\
    (forall k t, tables (db ready_world) !! k = Some t ->
       tables (db w') !! k = Some t).
Proof.
  destruct (@restart_keeps_data sample_externals ready_world
              (Table users_cols [@admin_row sample_externals 1] 1))
    as (w' & H1 & H2 & _).
  - reflexivity.
  - vm_compute. reflexivity.
  - vm_compute. reflexivity.
  - simpl. discriminate.
  - exists w'. split; [exact H1 | exact H2].
Defined.

Lemma seeded_admin_can_login_witness :
  @handle sample_externals login_admin ready_world =
    (Ok ([cb_handler h_login_post], Redirect "/dashboard"),
     set_sessions (after_call ready_world)
       (<["sid-1" := Sess (Some (admin_identity_at 1))]> (sessions ready_world))).
Proof.
  apply (@seeded_admin_can_login sample_externals login_admin ready_world 1 1).
  - reflexivity.
  - reflexivity.
  - reflexivity.
  - reflexivity.
  - reflexivity.
  - vm_compute. discriminate.
  - vm_compute. reflexivity.
Defined.

Lemma contact_conversion_failure_witness :
  @handle sample_externals contact_shadowed logged_in_world =
    (Ok (contact_trace, contact_notice admin_identity contact_failure),
     logged contact_error_msg conversion_error logged_in_world).
Proof.
  destruct (@contact_conversion_failure sample_externals contact_shadowed
              logged_in_world admin_identity) as [_ H].
  - reflexivity.
  - reflexivity.
  - vm_compute. reflexivity.
  - apply H. reflexivity.
Defined.

Lemma topics_one_selection_witness :
  topicsStr (JObj [("topics", JArr [JStr "billing"])]) = Some "billing" /\
  topicsStr (JObj [("topics", JStr "billing")]) = Some "billing".
Proof.
  apply (@topics_one_selection
           (JObj [("topics", JArr [JStr "billing"])])
           (JObj [("topics", JStr "billing")]) "billing"); reflexivity.
Defined.

Lemma topics_boundaries_lost_witness :
  topicsStr (JObj [("topics", JArr [JStr "billing"; JStr "support"])]) =
    Some "billing, support" /\
  topicsStr (JObj [("topics", JArr [JStr "billing, support"])]) =
    topicsStr (JObj [("topics", JArr [JStr "billing"; JStr "support"])]) /\
  topicsStr (JObj [("topics", JStr "billing, support")]) =
    topicsStr (JObj [("topics", JArr [JStr "billing"; JStr "support"])]).
Proof.
  apply (@topics_boundaries_lost
           (JObj [("topics", JArr [JStr "billing"; JStr "support"])])
           (JObj [("topics", JArr [JStr "billing, support"])])
           (JObj [("topics", JStr "billing, support")])
           "billing" "support"); reflexivity.
Defined.

Lemma contact_strings_stored_witness :
  exists w',
    @handle sample_externals contact_blank logged_in_world =
      (Ok (contact_trace, contact_notice admin_identity contact_success), w') /\
    tables (db w') =
      <["messages" :=
          Table messages_cols
            [message_row 1 (SText "") (SText "") (SText "") ""
               "2024-01-01 00:00:00"] 1]>
        (tables (db logged_in_world)).
Proof.
  destruct (@contact_strings_stored sample_externals contact_blank
              logged_in_world admin_identity "" "" "" "" [] 0)
    as (w' & H1 & H2 & _).
  - reflexivity.
  - reflexivity.
  - vm_compute. reflexivity.
  - reflexivity.
  - reflexivity.
  - reflexivity.
  - reflexivity.
  - reflexivity.
  - vm_compute. reflexivity.
  - exists w'. split; [exact H1 | exact H2].
Defined.

Lemma contact_null_rejected_witness :
  exists w',
    @handle sample_externals contact_nameless logged_in_world =
      (Ok (contact_trace, contact_notice admin_identity contact_failure), w') /\
    db w' = db logged_in_world.
Proof.
  apply (@contact_null_rejected sample_externals contact_nameless
           logged_in_world admin_identity [] 0).
  - reflexivity.
  - reflexivity.
  - vm_compute. reflexivity.
  - vm_compute. reflexivity.
  - left. reflexivity.
Defined.

(** The two answers at a login without a password field, on the seeded
    database: generic message for the unknown username, internal error for
    the administrator's. *)
Lemma login_compare_throw_reveals_username_witness :
  @handle sample_externals login_unknown_no_password ready_world =
    (Ok ([cb_handler h_login_post],
         Render "login" [("error", VStr invalid_credentials)]),
     after_call ready_world) /\
  @handle sample_externals login_admin_no_password ready_world =
    (Ok ([cb_handler h_login_post], internal_error),
     logged login_error_msg (LibError "bcrypt.compare")
       (after_call ready_world)) /\
  fst (@handle sample_externals login_unknown_no_password ready_world) <>
  fst (@handle sample_externals login_admin_no_password ready_world).
Proof.
  apply (@login_compare_throw_reveals_username sample_externals ready_world
           login_unknown_no_password login_admin_no_password
           (Table users_cols [@admin_row sample_externals 1] 1)
           (@admin_row sample_externals 1)).
  - reflexivity.
  - reflexivity.
  - reflexivity.
  - reflexivity.
  - vm_compute. discriminate.
  - vm_compute. reflexivity.
  - reflexivity.
  - reflexivity.
  - vm_compute. reflexivity.
  - vm_compute. reflexivity.
  - reflexivity.
Defined.

(** The router takes a path in any letter case, with or without one
    trailing slash: the contact form posted to /Contact/ is stored, GET
    /DASHBOARD is the dashboard route; a doubled trailing slash is not
    routed. *)
Example routing_ignores_case_and_slash :
  fst (@handle sample_externals contact_other_spelling logged_in_world) =
    Ok (contact_trace, contact_notice admin_identity contact_success) /\
  find_route routes (Request GET "/DASHBOARD" None (JObj []) "sid-1") =
    Some (protected GET "/dashboard" h_dashboard) /\
  find_route routes (Request GET "/dashboard//" None (JObj []) "sid-1") = None /\
  find_route routes (Request GET "/" None (JObj []) "sid-1") =
    Some (public GET "/" h_root) /\
  find_route routes (Request GET "//" None (JObj []) "sid-1") = None.
Proof. repeat split; vm_compute; reflexivity. Qed.
